(** * bash-mini: a shallow embedding of [bash_mini.c]

    The shell is a single C file.  Its pure parts (token splitting, decimal
    printing, path construction) are embedded as functions over byte lists;
    its system calls are answered by an environment of oracles, and every
    call is recorded in a trace, so that statements about what the shell
    prints, spawns or changes are statements about traces. *)

From Stdlib Require Import ZArith Ascii String Lia Sorted.
From stdpp Require Import base list.

Local Open Scope Z_scope.

(** ** Bytes and C strings *)

(** A [char] is an 8-bit [ascii]; a C string is the list of its bytes
    without the terminator, so [strlen] is [length]. *)
Definition NUL : ascii := "000"%char.
Definition LF : ascii := "010"%char.
Definition TAB : ascii := "009"%char.
Definition SPACE : ascii := " "%char.

Definition str (s : string) : list ascii := list_ascii_of_string s.

Definition is_nul (c : ascii) : bool := Ascii.eqb c NUL.

(** [*p == ' ' || *p == '\t'] *)
Definition is_blank (c : ascii) : bool := Ascii.eqb c SPACE || Ascii.eqb c TAB.

(** [*p != '\0' && *p != ' ' && *p != '\t'] *)
Definition is_tokchar (c : ascii) : bool := negb (is_nul c) && negb (is_blank c).

(** [*p] for a pointer [p] into [buf]: the byte at offset [p].  The buffers
    the shell scans always hold a terminator; a model buffer that ends
    without one is read as terminated at its end. *)
Definition peek (buf : list ascii) (p : nat) : ascii := default NUL (buf !! p).

(** Length of the longest prefix whose bytes all satisfy [f]: the number of
    times a loop [while (f( *p )) p++] advances. *)
Fixpoint run_length (f : ascii -> bool) (l : list ascii) : nat :=
  match l with
  | c :: l' => if f c then S (run_length f l') else O
  | [] => O
  end.

(** The C string that starts at offset [p] of [buf]. *)
Definition c_str (l : list ascii) : list ascii := take (run_length (fun c => negb (is_nul c)) l) l.
Definition cstr_at (buf : list ascii) (p : nat) : list ascii := c_str (drop p buf).

(** ** Constants of the source *)

Definition PROMPT : list ascii := str "bash-mini$ ".
Definition INITIAL_BUFSZ : Z := 1024.
Definition MAX_ARGS : Z := 128.
Definition PATH_BUF_SZ : Z := 4096.
Definition STDIN_FILENO : Z := 0.
Definition STDOUT_FILENO : Z := 1.
Definition STDERR_FILENO : Z := 2.

(** ** Tokenizer: [parse_tokens] *)

Module Tokenizer.

(** [while ( *p == ' ' || *p == '\t') p++;] *)
Definition skip_blanks (line : list ascii) (p : nat) : nat :=
  (p + run_length is_blank (drop p line))%nat.

(** [while ( *p != '\0' && *p != ' ' && *p != '\t') p++;] *)
Definition skip_token (line : list ascii) (p : nat) : nat :=
  (p + run_length is_tokchar (drop p line))%nat.

(** The outer [while ( *p != '\0')] loop.  [argv] holds the offsets stored so
    far, so [argc] is its length.  The loop has no structural measure in C;
    [fuel] bounds its iterations and [None] means the bound was hit. *)
Fixpoint parse_loop (fuel : nat) (max_args : Z) (line : list ascii) (p : nat)
    (argv : list nat) : option (list ascii * list nat) :=
  match fuel with
  | O => None
  | S fuel' =>
    if is_nul (peek line p) then Some (line, argv)
    else
      let p1 := skip_blanks line p in
      if is_nul (peek line p1) then Some (line, argv)
      else if Z.of_nat (length argv) >=? max_args - 1 then Some (line, argv)
      else
        let argv' := argv ++ [p1] in
        let q := skip_token line p1 in
        if negb (is_nul (peek line q))
        then parse_loop fuel' max_args (<[q:=NUL]> line) (S q) argv'
        else parse_loop fuel' max_args line q argv'
  end.

(** Result of [parse_tokens]: the line as mutated in place, the array
    [argv] (offsets into the line, then the [NULL] sentinel as [None]) and
    the returned [argc]. *)
Record parsed := Parsed {
  p_line : list ascii;
  p_argv : list (option nat);
  p_argc : Z
}.

Definition parse_tokens (line : list ascii) (max_args : Z) : option parsed :=
  match parse_loop (S (length line)) max_args line O [] with
  | Some (line', offs) =>
      Some (Parsed line' (map Some offs ++ [None]) (Z.of_nat (length offs)))
  | None => None
  end.

(** The strings the entries of [argv] point at, up to the sentinel. *)
Fixpoint argv_strings (line : list ascii) (argv : list (option nat)) : list (list ascii) :=
  match argv with
  | Some p :: argv' => cstr_at line p :: argv_strings line argv'
  | _ => []
  end.

Definition tokens_of (r : parsed) : list (list ascii) :=
  argv_strings (p_line r) (p_argv r).

(** Whitespace splitting as the specification words it: maximal runs of
    non-blank bytes of the text before the terminator, in order. *)
Fixpoint split_blanks (l : list ascii) (cur : list ascii) : list (list ascii) :=
  match l with
  | [] => match cur with [] => [] | _ => [rev cur] end
  | c :: l' =>
    if is_blank c
    then match cur with [] => split_blanks l' [] | _ => rev cur :: split_blanks l' [] end
    else split_blanks l' (c :: cur)
  end.

Definition spec_tokens (line : list ascii) : list (list ascii) :=
  split_blanks (c_str line) [].

End Tokenizer.

(** ** Decimal printing: [u32_to_str] *)

Definition UINT_MAX : Z := 2 ^ 32 - 1.

(** The cast [(unsigned int)e] of an [int] expression. *)
Definition to_uint (z : Z) : Z := z mod 2 ^ 32.

(** [(char)('0' + (x % 10))] *)
Definition digit_char (d : Z) : ascii := ascii_of_nat (48 + Z.to_nat d).

(** [while (x > 0 && t < (int)sizeof(tmp)) { tmp[t++] = ...; x /= 10; }]
    [room] is [sizeof(tmp) - t], which the loop condition itself bounds; the
    result is [tmp[0..t)], least significant digit first. *)
Fixpoint u32_digits (room : nat) (x : Z) : list ascii :=
  match room with
  | O => []
  | S room' =>
    if x >? 0 then digit_char (x mod 10) :: u32_digits room' (x / 10) else []
  end.

(** The string left in [out]; the second loop copies [tmp] backwards. *)
Definition u32_to_str (x : Z) : list ascii :=
  if x =? 0 then [digit_char 0] else rev (u32_digits 32 x).

(** Reading a decimal numeral back, used to say what [u32_to_str] prints. *)
Definition decimal_value (s : list ascii) : Z :=
  fold_left (fun acc c => 10 * acc + (Z.of_nat (nat_of_ascii c) - 48)) s 0.

(** ** The environment: system calls, traces, outcomes *)

Inductive read_result :=
| ReadErr                 (* read returned a negative value *)
| ReadEof                 (* read returned 0 *)
| ReadByte (c : ascii).   (* read returned 1 and stored [c] *)

(** One entry per library or system call, with the answer it got. *)
Inductive event :=
| EvWrite (fd : Z) (data : list ascii) (res : option nat)
    (* write(fd, data, len): [None] is w < 0, [Some k] is w = k <= len *)
| EvRead (res : read_result)
| EvMalloc (size : Z) (ok : bool)
| EvRealloc (size : Z) (ok : bool)
| EvAccess (path : list ascii) (ok : bool)
| EvChdir (path : list ascii) (ok : bool)
| EvFork (pid : Z)
| EvExecv (path : list ascii) (argv : list (list ascii)) (ok : bool)
| EvWaitpid (pid : Z) (res : option Z)
| EvPerror (label : list ascii) (descr : list ascii).

Definition trace := list event.

(** What the world answers.  Every oracle sees the whole history, so an
    answer may depend on anything that happened before.  The process never
    changes its own environment variables, hence [env_home] is fixed.  The
    four status macros come from [<sys/wait.h>] and are taken as given. *)
Record Env := {
  env_home : option (list ascii);             (* getenv("HOME"), [None] is NULL *)
  env_read : trace -> read_result;
  env_write : trace -> Z -> list ascii -> option nat;
  env_alloc : trace -> Z -> bool;
  env_access : trace -> list ascii -> bool;   (* access(path, X_OK) == 0 *)
  env_chdir : trace -> list ascii -> bool;    (* chdir(path) == 0 *)
  env_fork : trace -> Z;
  env_execv : trace -> list ascii -> list (list ascii) -> bool;
  env_waitpid : trace -> Z -> option Z;       (* [None] is a negative return *)
  env_strerror : trace -> list ascii;         (* text of the current errno *)
  env_junk : ascii;                           (* content of fresh memory *)
  WIFEXITED : Z -> bool;
  WEXITSTATUS : Z -> Z;
  WIFSIGNALED : Z -> bool;
  WTERMSIG : Z -> Z
}.

(** How a piece of the program can end. *)
Inductive outcome (A : Type) :=
| Ret (a : A) (tr : trace)        (* it returned [a] *)
| Exited (code : Z) (tr : trace)  (* the process called _exit(code) *)
| Replaced (tr : trace)           (* execv succeeded: another program runs *)
| Fault (tr : trace)              (* a store outside of an array *)
| OutOfFuel.                      (* the iteration bound of the model was hit *)
Arguments Ret {A} a tr.
Arguments Exited {A} code tr.
Arguments Replaced {A} tr.
Arguments Fault {A} tr.
Arguments OutOfFuel {A}.

Definition M (A : Type) : Type := trace -> outcome A.

Definition ret {A} (a : A) : M A := fun tr => Ret a tr.

Definition bind {A B} (m : M A) (k : A -> M B) : M B :=
  fun tr =>
    match m tr with
    | Ret a tr' => k a tr'
    | Exited c tr' => Exited c tr'
    | Replaced tr' => Replaced tr'
    | Fault tr' => Fault tr'
    | OutOfFuel => OutOfFuel
    end.

Notation "'let*' x ':=' m 'in' k" := (bind m (fun x => k))
  (at level 10, x pattern, m at level 100, k at level 200).
Notation "m ;; k" := (bind m (fun _ => k))
  (at level 100, k at level 200, right associativity).

Definition _exit {A} (code : Z) : M A := fun tr => Exited code tr.
Definition fault {A} : M A := fun tr => Fault tr.
Definition out_of_fuel {A} : M A := fun _ => OutOfFuel.

(** ** Observations on traces *)

(** Bytes that reached descriptor [fd].  [perror] goes to standard error
    as its label, a colon and a space, the error text and a newline. *)
Definition event_output (fd : Z) (e : event) : list ascii :=
  match e with
  | EvWrite fd' data (Some k) => if fd' =? fd then take k data else []
  | EvPerror label descr =>
      if fd =? STDERR_FILENO then label ++ str ": " ++ descr ++ [LF] else []
  | _ => []
  end.

Definition output (fd : Z) (tr : trace) : list ascii :=
  concat (map (event_output fd) tr).

Definition is_fork (e : event) : bool :=
  match e with EvFork _ => true | _ => false end.
Definition is_child_fork (e : event) : bool :=
  match e with EvFork pid => pid =? 0 | _ => false end.
Definition is_failed_write (e : event) : bool :=
  match e with EvWrite _ _ None => true | _ => false end.

(** Number of [fork] calls, and whether this process is a forked child. *)
Definition forks (tr : trace) : nat := length (List.filter is_fork tr).
Definition in_child (tr : trace) : bool := existsb is_child_fork tr.
Definition write_failed (tr : trace) : bool := existsb is_failed_write tr.

(** Working directory: a successful [chdir] to an absolute path moves
    there, to a relative path moves below the current one. *)
Definition chdir_to (cwd path : list ascii) : list ascii :=
  match path with
  | c :: _ => if Ascii.eqb c "/"%char then path else cwd ++ str "/" ++ path
  | [] => cwd
  end.

Definition cwd_step (cwd : list ascii) (e : event) : list ascii :=
  match e with
  | EvChdir path true => chdir_to cwd path
  | _ => cwd
  end.

Definition cwd_after (start : list ascii) (tr : trace) : list ascii :=
  fold_left cwd_step tr start.

(** ** The program *)

Definition SIZE_WIDTH : Z := 64.
Definition PTRDIFF_MAX : Z := 2 ^ 63 - 1.

(** Arithmetic on [size_t] wraps. *)
Definition size_t (z : Z) : Z := z mod 2 ^ SIZE_WIDTH.

Definition strlen (s : list ascii) : Z := Z.of_nat (length s).

(** [strcmp(a, b) == 0] *)
Fixpoint strcmp_eq (a b : list ascii) : bool :=
  match a, b with
  | [], [] => true
  | x :: a', y :: b' => Ascii.eqb x y && strcmp_eq a' b'
  | _, _ => false
  end.

(** [buf[i] = c]; a store outside of the array is a fault. *)
Definition store (buf : list ascii) (i : Z) (c : ascii) : M (list ascii) :=
  if (0 <=? i) && (i <? strlen buf)
  then ret (<[Z.to_nat i:=c]> buf)
  else fault.

(** [memcpy(dst + n, src, strlen(src))] *)
Definition memcpy (dst : list ascii) (n : Z) (src : list ascii) : M (list ascii) :=
  if (0 <=? n) && (n + strlen src <=? strlen dst)
  then ret (take (Z.to_nat n) dst ++ src ++ drop (Z.to_nat n + length src) dst)
  else fault.

(** The block that [realloc] returns: the old bytes up to the new size,
    then fresh memory. *)
Definition realloc_block (junk : ascii) (buf : list ascii) (n : Z) : list ascii :=
  take (Z.to_nat n) buf ++ replicate (Z.to_nat n - length buf) junk.

(** The input buffer of [main]: [line] ([None] is NULL) and [cap]. *)
Record linebuf := LineBuf {
  lb_line : option (list ascii);
  lb_cap : Z
}.

(** What one turn of the [for (;;)] loop of [read_line] does next. *)
Inductive rl_next :=
| RlAgain (line : list ascii) (cap len : Z)
| RlReturn (rr : Z) (lb : linebuf).

(** What one turn of the loop of [main] does next. *)
Inductive main_next :=
| Continue (lb : linebuf)
| Break (lb : linebuf).

Section Shell.

Variable E : Env.

(** *** Calls into the system *)

(** write(2) never reports more bytes than it was given. *)
Definition sys_write (fd : Z) (buf : list ascii) : M (option nat) := fun tr =>
  let w := option_map (fun k => Nat.min k (length buf)) (env_write E tr fd buf) in
  Ret w (tr ++ [EvWrite fd buf w]).

Definition sys_read : M read_result := fun tr =>
  let r := env_read E tr in Ret r (tr ++ [EvRead r]).

(** No allocator hands out more than [PTRDIFF_MAX] bytes. *)
Definition malloc (size : Z) : M bool := fun tr =>
  let ok := (size <=? PTRDIFF_MAX) && env_alloc E tr size in
  Ret ok (tr ++ [EvMalloc size ok]).

Definition realloc (size : Z) : M bool := fun tr =>
  let ok := (size <=? PTRDIFF_MAX) && env_alloc E tr size in
  Ret ok (tr ++ [EvRealloc size ok]).

Definition access_x (path : list ascii) : M bool := fun tr =>
  let ok := env_access E tr path in Ret ok (tr ++ [EvAccess path ok]).

Definition chdir (path : list ascii) : M bool := fun tr =>
  let ok := env_chdir E tr path in Ret ok (tr ++ [EvChdir path ok]).

Definition fork : M Z := fun tr =>
  let pid := env_fork E tr in Ret pid (tr ++ [EvFork pid]).

(** [execv] returns only when it failed. *)
Definition execv (path : list ascii) (argv : list (list ascii)) : M unit := fun tr =>
  if env_execv E tr path argv
  then Replaced (tr ++ [EvExecv path argv true])
  else Ret tt (tr ++ [EvExecv path argv false]).

Definition waitpid (pid : Z) : M (option Z) := fun tr =>
  let r := env_waitpid E tr pid in Ret r (tr ++ [EvWaitpid pid r]).

Definition perror (label : list ascii) : M unit := fun tr =>
  Ret tt (tr ++ [EvPerror label (env_strerror E tr)]).

(** *** Small I/O helpers *)

(** [buf] is what is left to write, [len] its length. *)
Fixpoint write_all (fuel : nat) (fd : Z) (buf : list ascii) {struct fuel} : M unit :=
  match buf with
  | [] => ret tt
  | _ :: _ =>
    match fuel with
    | O => out_of_fuel
    | S fuel' =>
      let* w := sys_write fd buf in
      match w with
      | None => _exit 1
      | Some k => write_all fuel' fd (drop k buf)
      end
    end
  end.

Definition print_str (fuel : nat) (fd : Z) (s : list ascii) : M unit :=
  write_all fuel fd s.

(** *** Line reading *)

Definition read_line_finish (line : list ascii) (cap len : Z) : M rl_next :=
  let* line := store line len NUL in
  ret (RlReturn 1 (LineBuf (Some line) cap)).

(** One turn of the loop: grow if needed, read a byte, dispatch. *)
Definition read_line_iter (line : list ascii) (cap len : Z) : M rl_next :=
  let* grown :=
    if size_t (len + 2) >? cap then
      let new_cap := size_t (cap * 2) in
      let* ok := realloc new_cap in
      if ok then ret (Some (realloc_block (env_junk E) line new_cap, new_cap))
      else ret None
    else ret (Some (line, cap)) in
  match grown with
  | None => ret (RlReturn (-1) (LineBuf (Some line) cap))
  | Some (line, cap) =>
    let* r := sys_read in
    match r with
    | ReadErr => ret (RlReturn (-1) (LineBuf (Some line) cap))
    | ReadEof =>
      if len =? 0 then ret (RlReturn 0 (LineBuf (Some line) cap))
      else read_line_finish line cap len
    | ReadByte c =>
      if Ascii.eqb c LF then read_line_finish line cap len
      else
        let* line := store line len c in
        ret (RlAgain line cap (size_t (len + 1)))
    end
  end.

Fixpoint read_line_loop (fuel : nat) (line : list ascii) (cap len : Z) : M (Z * linebuf) :=
  match fuel with
  | O => out_of_fuel
  | S fuel' =>
    let* n := read_line_iter line cap len in
    match n with
    | RlAgain line cap len => read_line_loop fuel' line cap len
    | RlReturn rr lb => ret (rr, lb)
    end
  end.

Definition read_line (fuel : nat) (lb : linebuf) : M (Z * linebuf) :=
  let* lb :=
    match lb with
    | LineBuf (Some line) cap =>
      if cap =? 0 then
        let* ok := malloc INITIAL_BUFSZ in
        ret (LineBuf (if ok then Some (replicate (Z.to_nat INITIAL_BUFSZ) (env_junk E)) else None)
                     INITIAL_BUFSZ)
      else ret lb
    | LineBuf None _ =>
      let* ok := malloc INITIAL_BUFSZ in
      ret (LineBuf (if ok then Some (replicate (Z.to_nat INITIAL_BUFSZ) (env_junk E)) else None)
                   INITIAL_BUFSZ)
    end in
  match lb_line lb with
  | None => ret (-1, lb)
  | Some line => read_line_loop fuel line (lb_cap lb) 0
  end.

(** *** Command search *)

Definition is_executable (path : list ascii) : M bool := access_x path.

(** Lines 151-157 and 167-173: copy [dir], a slash and [cmd] into
    [out_path] and terminate it. *)
Definition build_path (dir cmd out_path : list ascii) : M (list ascii) :=
  let n := 0 in
  let* out_path := memcpy out_path n dir in
  let n := n + strlen dir in
  let* out_path := store out_path n "/"%char in
  let n := n + 1 in
  let* out_path := memcpy out_path n cmd in
  let n := n + strlen cmd in
  store out_path n NUL.

(** One of the two blocks of [find_command_path].  The strings are objects
    of one address space, so the sum of their sizes does not wrap. *)
Definition try_dir (dir cmd out_path : list ascii) (out_sz : Z) : M (bool * list ascii) :=
  let need := strlen dir + 1 + strlen cmd + 1 in
  if need <=? out_sz then
    let* out_path := build_path dir cmd out_path in
    let* x := is_executable (cstr_at out_path 0) in
    ret (x, out_path)
  else ret (false, out_path).

Definition find_command_path (cmd out_path : list ascii) (out_sz : Z) : M (Z * list ascii) :=
  let* (found, out_path) :=
    match env_home E with
    | Some (c :: home') => try_dir (c :: home') cmd out_path out_sz
    | _ => ret (false, out_path)
    end in
  if found then ret (1, out_path)
  else
    let* (found, out_path) := try_dir (str "/bin") cmd out_path out_sz in
    if found then ret (1, out_path) else ret (0, out_path).

(** *** Internal commands *)

Definition cd_to (target : list ascii) : M unit :=
  let* ok := chdir target in
  if ok then ret tt else perror (str "cd").

Definition handle_cd (fuel : nat) (argc : Z) (argv : list (list ascii)) : M unit :=
  if argc <? 2 then
    match env_home E with
    | Some (c :: target') => cd_to (c :: target')
    | _ => print_str fuel STDERR_FILENO (str "cd: HOME not set" ++ [LF])
    end
  else cd_to (nth 1 argv []).

(** *** External execution *)

Definition print_unknown_command (fuel : nat) (cmd : list ascii) : M unit :=
  print_str fuel STDERR_FILENO (str "]") ;;
  print_str fuel STDERR_FILENO cmd ;;
  print_str fuel STDERR_FILENO (str "]: Unknown Command[" ++ [LF]).

(** Lines 241-261: the banner and the line that tells how the child ended. *)
Definition report_status (fuel : nat) (status : Z) : M unit :=
  print_str fuel STDOUT_FILENO (str "Command executed successfully." ++ [LF]) ;;
  if WIFEXITED E status then
    let rc := to_uint (WEXITSTATUS E status) in
    let num := u32_to_str rc in
    print_str fuel STDOUT_FILENO (str "Command finished. Return code: ") ;;
    print_str fuel STDOUT_FILENO num ;;
    print_str fuel STDOUT_FILENO [LF]
  else if WIFSIGNALED E status then
    let sig := to_uint (WTERMSIG E status) in
    let num := u32_to_str sig in
    print_str fuel STDOUT_FILENO (str "Command terminated by signal: ") ;;
    print_str fuel STDOUT_FILENO num ;;
    print_str fuel STDOUT_FILENO [LF]
  else
    print_str fuel STDOUT_FILENO (str "Command finished with unknown status." ++ [LF]).

Definition execute_external (fuel : nat) (argv : list (list ascii)) : M unit :=
  let path_buf := replicate (Z.to_nat PATH_BUF_SZ) (env_junk E) in
  let argv0 := nth 0 argv [] in
  let* (found, path_buf) := find_command_path argv0 path_buf PATH_BUF_SZ in
  if found =? 0 then print_unknown_command fuel argv0
  else
    let* pid := fork in
    if pid <? 0 then perror (str "fork")
    else if pid =? 0 then
      execv (cstr_at path_buf 0) argv ;;
      perror (str "exec") ;;
      _exit 127
    else
      let* w := waitpid pid in
      match w with
      | None => perror (str "waitpid")
      | Some status => report_status fuel status
      end.

(** *** main *)

(** One turn of the [for (;;)] loop of [main]. *)
Definition main_iter (fuel : nat) (lb : linebuf) : M main_next :=
  print_str fuel STDOUT_FILENO PROMPT ;;
  let* (rr, lb) := read_line fuel lb in
  if rr <? 0 then perror (str "read") ;; ret (Break lb)
  else if rr =? 0 then print_str fuel STDOUT_FILENO [LF] ;; ret (Break lb)
  else
    match lb_line lb with
    | None => fault
    | Some line =>
      if is_nul (peek line 0) then ret (Continue lb)
      else
        match Tokenizer.parse_tokens line MAX_ARGS with
        | None => out_of_fuel
        | Some r =>
          let lb := LineBuf (Some (Tokenizer.p_line r)) (lb_cap lb) in
          let argc := Tokenizer.p_argc r in
          let argv := Tokenizer.tokens_of r in
          if argc =? 0 then ret (Continue lb)
          else if strcmp_eq (nth 0 argv []) (str "exit") then ret (Break lb)
          else if strcmp_eq (nth 0 argv []) (str "cd") then
            handle_cd fuel argc argv ;; ret (Continue lb)
          else
            execute_external fuel argv ;; ret (Continue lb)
        end
    end.

(** The loop, then [free(line); return 0;]. *)
Fixpoint main_loop (fuel : nat) (lb : linebuf) : M Z :=
  match fuel with
  | O => out_of_fuel
  | S fuel' =>
    let* n := main_iter fuel' lb in
    match n with
    | Continue lb => main_loop fuel' lb
    | Break _ => ret 0
    end
  end.

Definition main (fuel : nat) : M Z := main_loop fuel (LineBuf None 0).

End Shell.

(** The exit status of the process, when it ended. *)
Definition exit_status (o : outcome Z) : option Z :=
  match o with
  | Ret c _ => Some c
  | Exited c _ => Some c
  | _ => None
  end.

Definition trace_of {A} (o : outcome A) : option trace :=
  match o with
  | Ret _ tr | Exited _ tr | Replaced tr | Fault tr => Some tr
  | OutOfFuel => None
  end.

(** ** A concrete environment, for running the model *)

Module Sample.

(** The status word as Linux encodes it. *)
Definition wifexited (s : Z) : bool := Z.land s 127 =? 0.
Definition wexitstatus (s : Z) : Z := Z.shiftr (Z.land s 65280) 8.
Definition wifsignaled (s : Z) : bool :=
  let t := Z.land s 127 in (0 <? t) && (t <? 127).
Definition wtermsig (s : Z) : Z := Z.land s 127.

(** Standard input delivers the results of [input] one by one, then end
    of stream.  The number of reads so far is found in the history. *)
Definition is_read (e : event) : bool :=
  match e with EvRead _ => true | _ => false end.
Definition reads (tr : trace) : nat := length (List.filter is_read tr).
Definition feed (input : list read_result) (tr : trace) : read_result :=
  default ReadEof (input !! reads tr).

Definition typed (s : list ascii) : list read_result := map ReadByte s.

(** [home] is the value of HOME, [execs] are the paths with execute
    permission, [fork] answers [pid], [execv] succeeds when [exec_ok] and
    [waitpid] answers [wres]; writes take everything, allocations and
    [chdir] work. *)
Definition env (home : option (list ascii)) (input : list read_result)
    (execs : list (list ascii)) (pid : Z) (exec_ok : bool) (wres : option Z) : Env := {|
  env_home := home;
  env_read := feed input;
  env_write := fun _ _ buf => Some (length buf);
  env_alloc := fun _ _ => true;
  env_access := fun _ path => existsb (strcmp_eq path) execs;
  env_chdir := fun _ _ => true;
  env_fork := fun _ => pid;
  env_execv := fun _ _ _ => exec_ok;
  env_waitpid := fun _ _ => wres;
  env_strerror := fun _ => str "No such file or directory";
  env_junk := "?"%char;
  WIFEXITED := wifexited;
  WEXITSTATUS := wexitstatus;
  WIFSIGNALED := wifsignaled;
  WTERMSIG := wtermsig
|}.

(** The same environment with another answer to [read], to [write] or to
    the allocator. *)
Definition with_read (r : trace -> read_result) (E : Env) : Env := {|
  env_home := env_home E;
  env_read := r;
  env_write := env_write E;
  env_alloc := env_alloc E;
  env_access := env_access E;
  env_chdir := env_chdir E;
  env_fork := env_fork E;
  env_execv := env_execv E;
  env_waitpid := env_waitpid E;
  env_strerror := env_strerror E;
  env_junk := env_junk E;
  WIFEXITED := WIFEXITED E;
  WEXITSTATUS := WEXITSTATUS E;
  WIFSIGNALED := WIFSIGNALED E;
  WTERMSIG := WTERMSIG E
|}.

Definition with_write (w : trace -> Z -> list ascii -> option nat) (E : Env) : Env := {|
  env_home := env_home E;
  env_read := env_read E;
  env_write := w;
  env_alloc := env_alloc E;
  env_access := env_access E;
  env_chdir := env_chdir E;
  env_fork := env_fork E;
  env_execv := env_execv E;
  env_waitpid := env_waitpid E;
  env_strerror := env_strerror E;
  env_junk := env_junk E;
  WIFEXITED := WIFEXITED E;
  WEXITSTATUS := WEXITSTATUS E;
  WIFSIGNALED := WIFSIGNALED E;
  WTERMSIG := WTERMSIG E
|}.

Definition with_alloc (a : trace -> Z -> bool) (E : Env) : Env := {|
  env_home := env_home E;
  env_read := env_read E;
  env_write := env_write E;
  env_alloc := a;
  env_access := env_access E;
  env_chdir := env_chdir E;
  env_fork := env_fork E;
  env_execv := env_execv E;
  env_waitpid := env_waitpid E;
  env_strerror := env_strerror E;
  env_junk := env_junk E;
  WIFEXITED := WIFEXITED E;
  WEXITSTATUS := WEXITSTATUS E;
  WIFSIGNALED := WIFSIGNALED E;
  WTERMSIG := WTERMSIG E
|}.

End Sample.

(** ** Notions used by the statements *)

Import Tokenizer.

(** Events of a [write_all] on [fd]: writes to [fd] and nothing else. *)
Definition is_write_to (fd : Z) (e : event) : Prop :=
  exists data res, e = EvWrite fd data res.

(** The oracle lets every [write] of at least one byte take at least one. *)
Definition writes_progress (E : Env) : Prop :=
  forall tr fd buf, buf <> [] -> exists k, env_write E tr fd buf = Some (S k).

(** The bytes ['0'] to ['9']. *)
Definition is_digit (c : ascii) : bool :=
  (48 <=? Z.of_nat (nat_of_ascii c)) && (Z.of_nat (nat_of_ascii c) <=? 57).

(** [m] returns after sending exactly [txt] to [fd], whatever the history. *)
Definition prints (fd : Z) (m : M unit) (txt : list ascii) : Prop :=
  forall tr, exists evs, m tr = Ret tt (tr ++ evs) /\
    Forall (is_write_to fd) evs /\ output fd evs = txt /\ write_failed evs = false.

(** The line printed after every successful [waitpid]. *)
Definition BANNER : list ascii := str "Command executed successfully." ++ [LF].

(** The line that follows the banner, without its newline. *)
Definition status_text (E : Env) (status : Z) : list ascii :=
  if WIFEXITED E status then
    str "Command finished. Return code: " ++ u32_to_str (to_uint (WEXITSTATUS E status))
  else if WIFSIGNALED E status then
    str "Command terminated by signal: " ++ u32_to_str (to_uint (WTERMSIG E status))
  else str "Command finished with unknown status.".

(** A C string holds no terminator inside. *)
Definition is_c_string (s : list ascii) : Prop :=
  forallb (fun c => negb (is_nul c)) s = true.

(** The path of [cmd] in [dir]. *)
Definition candidate (dir cmd : list ascii) : list ascii := dir ++ str "/" ++ cmd.

Module Resolver.

(** The search path of the specification: the home directory when the
    variable is set and not empty, then [/bin]. *)
Definition search_path (home : option (list ascii)) : list (list ascii) :=
  match home with
  | Some (c :: h) => [c :: h; str "/bin"]
  | _ => [str "/bin"]
  end.

(** Resolution as the specification words it: the first candidate, in
    order, that fits in [limit] bytes with its terminator and passes the
    execute-permission test; a candidate that does not fit is not tested. *)
Fixpoint resolve_in (E : Env) (dirs : list (list ascii)) (cmd : list ascii) (limit : Z)
    (tr : trace) : option (list ascii) * trace :=
  match dirs with
  | [] => (None, tr)
  | d :: ds =>
    let p := candidate d cmd in
    if strlen p + 1 <=? limit then
      let ok := env_access E tr p in
      let tr' := tr ++ [EvAccess p ok] in
      if ok then (Some p, tr') else resolve_in E ds cmd limit tr'
    else resolve_in E ds cmd limit tr
  end.

Definition resolve (E : Env) (cmd : list ascii) (tr : trace) : option (list ascii) * trace :=
  resolve_in E (search_path (env_home E)) cmd PATH_BUF_SZ tr.

End Resolver.

(** Events of [find_command_path]: permission tests and nothing else. *)
Definition is_access (e : event) : Prop := exists path ok, e = EvAccess path ok.

(** The path buffer of [execute_external] when the function starts. *)
Abbreviation path_buf0 E := (replicate (Z.to_nat PATH_BUF_SZ) (env_junk E)).

(** Events that print nothing, spawn nothing and move nowhere. *)
Definition quiet (e : event) : bool :=
  match e with
  | EvRead _ | EvMalloc _ _ | EvRealloc _ _ | EvAccess _ _ | EvWaitpid _ _ => true
  | _ => false
  end.

(** What holds of the buffer at every turn of the loop of [read_line]:
    the block has [cap] bytes, the bytes accumulated so far leave room for
    the terminator, and the allocator could really hand out the block. *)
Definition buf_inv (line : list ascii) (cap len : Z) : Prop :=
  strlen line = cap /\ 0 <= len < cap /\ cap <= PTRDIFF_MAX.

(** The buffer between two calls of [read_line]. *)
Definition lb_good (lb : linebuf) : Prop :=
  match lb_line lb with
  | Some l => strlen l = lb_cap lb /\ lb_cap lb <= PTRDIFF_MAX
  | None => True
  end.

(** The capacity [read_line] starts its loop with. *)
Definition start_cap (lb : linebuf) : Z :=
  match lb with
  | LineBuf (Some _) cap => if cap =? 0 then INITIAL_BUFSZ else cap
  | LineBuf None _ => INITIAL_BUFSZ
  end.

(** [o] is what a piece of the shell did from history [tr]: it returned a
    value satisfying [Q] without forking into a child or failing a write;
    or the process exited with 1 right after its first failed write, on
    standard output or standard error; or it is a forked child, which is
    replaced by the command or exits with 127. *)
Definition shell_step {A} (Q : A -> Prop) (tr : trace) (o : outcome A) : Prop :=
  match o with
  | Ret a tr' =>
      Q a /\ exists evs, tr' = tr ++ evs /\ in_child evs = false /\ write_failed evs = false
  | Exited c tr' =>
      exists evs, tr' = tr ++ evs /\
        ((c = 1 /\ in_child evs = false /\
          exists evs0 fd data, evs = evs0 ++ [EvWrite fd data None] /\
            write_failed evs0 = false /\ (fd = STDOUT_FILENO \/ fd = STDERR_FILENO)) \/
         (c = 127 /\ in_child evs = true /\ write_failed evs = false))
  | Replaced tr' => exists evs, tr' = tr ++ evs /\ in_child evs = true
  | Fault _ => False
  | OutOfFuel => True
  end.

(** [parse_tokens] returns on [line], with the first [n] tokens of the
    reference splitter. *)
Definition truncates_at (n : nat) (line : list ascii) : Prop :=
  option_map tokens_of (parse_tokens line MAX_ARGS) = Some (take n (spec_tokens line)).

(** [n] one-letter tokens, each followed by a space. *)
Definition many_tokens (n : nat) : list ascii := concat (replicate n (str "a ")).

(** *** Notions for the further properties *)


(** Bytes that standard input delivered, in order. *)
Definition event_input (e : event) : list ascii :=
  match e with
  | EvRead (ReadByte c) => [c]
  | _ => []
  end.

Definition input_bytes (tr : trace) : list ascii := concat (map event_input tr).


(** A permission test that was refused. *)
Definition is_denied (e : event) : Prop := exists path, e = EvAccess path false.

(** * Properties *)

(** ** The tokenizer *)

(** *** Runs of bytes *)

Lemma peek_drop (l : list ascii) (p k : nat) : peek (drop p l) k = peek l (p + k).
Proof. unfold peek. by rewrite lookup_drop. Qed.

Lemma run_length_le f l : (run_length f l <= length l)%nat.
Proof. induction l as [|c l IH]; simpl; [lia|]. destruct (f c); simpl; lia. Qed.

Lemma run_length_take f l : forallb f (take (run_length f l) l) = true.
Proof.
  induction l as [|c l IH]; simpl; [done|].
  destruct (f c) eqn:Hc; simpl; [|done]. by rewrite Hc, IH.
Qed.

Lemma run_length_stop f l : f NUL = false -> f (peek l (run_length f l)) = false.
Proof.
  intros Hn. induction l as [|c l IH]; simpl; [done|].
  destruct (f c) eqn:Hc; simpl; [|done]. exact IH.
Qed.

Lemma run_length_app f xs l :
  forallb f xs = true -> run_length f (xs ++ l) = (length xs + run_length f l)%nat.
Proof.
  induction xs as [|x xs IH]; simpl; [done|].
  intros [-> H]%andb_prop. by rewrite IH.
Qed.

Lemma run_length_zero f l : f (peek l 0) = false -> f NUL = false -> run_length f l = 0%nat.
Proof. destruct l as [|c l]; simpl; [done|]. unfold peek; simpl. by intros ->. Qed.

Lemma scan_run f (l : list ascii) :
  f NUL = false ->
  exists xs rest, l = xs ++ rest /\ length xs = run_length f l /\
    forallb f xs = true /\ f (peek rest 0) = false.
Proof.
  intros Hn. exists (take (run_length f l) l), (drop (run_length f l) l).
  split; [by rewrite take_drop|]. split; [|split].
  - rewrite length_take. pose proof (run_length_le f l). lia.
  - apply run_length_take.
  - rewrite peek_drop, Nat.add_0_r. by apply run_length_stop.
Qed.

Lemma blank_not_nul c : is_blank c = true -> is_nul c = false.
Proof.
  unfold is_blank, is_nul. intros [H|H]%orb_prop; apply Ascii.eqb_eq in H; by subst.
Qed.

Lemma tokchar_not_nul c : is_tokchar c = true -> is_nul c = false.
Proof. unfold is_tokchar. intros [H _]%andb_prop. by destruct (is_nul c). Qed.

Lemma tokchar_not_blank c : is_tokchar c = true -> is_blank c = false.
Proof. unfold is_tokchar. intros [_ H]%andb_prop. by destruct (is_blank c). Qed.

Lemma forallb_impl (f g : ascii -> bool) l :
  (forall c, f c = true -> g c = true) -> forallb f l = true -> forallb g l = true.
Proof.
  intros Hfg. induction l as [|c l IH]; simpl; [done|].
  intros [Hc Hl]%andb_prop. by rewrite (Hfg _ Hc), IH.
Qed.

(** *** C strings *)

Lemma c_str_nul l : is_nul (peek l 0) = true -> c_str l = [].
Proof. destruct l as [|c l]; [done|]. unfold peek, c_str; simpl. by intros ->. Qed.

Lemma c_str_app xs l :
  forallb (fun c => negb (is_nul c)) xs = true -> c_str (xs ++ l) = xs ++ c_str l.
Proof.
  intros H. unfold c_str. rewrite run_length_app by done.
  by rewrite take_app_add'.
Qed.

Lemma c_str_blanks xs l : forallb is_blank xs = true -> c_str (xs ++ l) = xs ++ c_str l.
Proof.
  intros H. apply c_str_app. revert H. apply forallb_impl.
  intros c Hc. by rewrite (blank_not_nul c Hc).
Qed.

Lemma c_str_tok xs l : forallb is_tokchar xs = true -> c_str (xs ++ l) = xs ++ c_str l.
Proof.
  intros H. apply c_str_app. revert H. apply forallb_impl.
  intros c Hc. by rewrite (tokchar_not_nul c Hc).
Qed.

(** *** The reference splitter *)

Lemma split_blanks_skip bl l :
  forallb is_blank bl = true -> split_blanks (bl ++ l) [] = split_blanks l [].
Proof.
  induction bl as [|b bl IH]; simpl; [done|].
  intros [-> H]%andb_prop. by apply IH.
Qed.

Lemma split_blanks_run tok l cur :
  forallb is_tokchar tok = true ->
  split_blanks (tok ++ l) cur = split_blanks l (rev tok ++ cur).
Proof.
  revert cur. induction tok as [|t tok IH]; simpl; intros cur; [done|].
  intros [Ht H]%andb_prop. rewrite (tokchar_not_blank t Ht), IH by done.
  by rewrite <- app_assoc.
Qed.

Lemma split_blanks_token tok b l :
  tok <> [] -> forallb is_tokchar tok = true -> is_blank b = true ->
  split_blanks (tok ++ b :: l) [] = tok :: split_blanks l [].
Proof.
  intros Hne Htok Hb. rewrite split_blanks_run by done. simpl. rewrite Hb.
  rewrite app_nil_r. destruct (rev tok) eqn:Hr.
  - apply (f_equal (@rev ascii)) in Hr. rewrite rev_involutive in Hr. by destruct Hne.
  - by rewrite <- Hr, rev_involutive.
Qed.

Lemma split_blanks_last tok :
  tok <> [] -> forallb is_tokchar tok = true -> split_blanks tok [] = [tok].
Proof.
  intros Hne Htok. rewrite <- (app_nil_r tok) at 1. rewrite split_blanks_run by done.
  simpl. rewrite app_nil_r. destruct (rev tok) eqn:Hr.
  - apply (f_equal (@rev ascii)) in Hr. rewrite rev_involutive in Hr. by destruct Hne.
  - by rewrite <- Hr, rev_involutive.
Qed.

(** *** The loop *)

Lemma skip_blanks_app pre bl rest :
  forallb is_blank bl = true -> is_blank (peek rest 0) = false ->
  skip_blanks (pre ++ bl ++ rest) (length pre) = length (pre ++ bl).
Proof.
  intros Hbl Hr. unfold skip_blanks. rewrite drop_app_length.
  rewrite run_length_app by done. rewrite (run_length_zero _ rest) by done.
  rewrite length_app. lia.
Qed.

Lemma skip_token_app pre tok rest :
  forallb is_tokchar tok = true -> is_tokchar (peek rest 0) = false ->
  skip_token (pre ++ tok ++ rest) (length pre) = length (pre ++ tok).
Proof.
  intros Hbl Hr. unfold skip_token. rewrite drop_app_length.
  rewrite run_length_app by done. rewrite (run_length_zero _ rest) by done.
  rewrite length_app. lia.
Qed.

Lemma peek_app_length (pre rest : list ascii) : peek (pre ++ rest) (length pre) = peek rest 0.
Proof. rewrite <- (Nat.add_0_r (length pre)), <- peek_drop. by rewrite drop_app_length. Qed.

Lemma parse_loop_spec fuel m (pre s : list ascii) (argv : list nat) :
  (length s < fuel)%nat ->
  exists s' offs,
    parse_loop fuel m (pre ++ s) (length pre) argv = Some (pre ++ s', argv ++ offs) /\
    length s' = length s /\
    peek s' 0 = peek s 0 /\
    map (cstr_at (pre ++ s')) offs
      = take (Z.to_nat (m - 1) - length argv) (spec_tokens s).
Proof.
  revert pre s argv. induction fuel as [|fuel IH]; intros pre s argv Hfuel; [lia|].
  simpl. rewrite peek_app_length.
  destruct (is_nul (peek s 0)) eqn:Hnul.
  { exists s, []. rewrite app_nil_r. repeat split; try done.
    unfold spec_tokens. rewrite c_str_nul by done. simpl. by rewrite take_nil. }
  destruct (scan_run is_blank s eq_refl) as (bl & s1 & -> & _ & Hbl & Hs1).
  rewrite skip_blanks_app by done. rewrite (app_assoc pre bl s1), peek_app_length.
  destruct (is_nul (peek s1 0)) eqn:Hnul1.
  { exists (bl ++ s1), []. rewrite !app_nil_r, <- app_assoc. repeat split; try done.
    unfold spec_tokens. rewrite c_str_blanks, (c_str_nul s1), app_nil_r by done.
    rewrite <- (app_nil_r bl), split_blanks_skip by done. simpl. by rewrite take_nil. }
  destruct (Z.of_nat (length argv) >=? m - 1) eqn:Hcap.
  { exists (bl ++ s1), []. rewrite !app_nil_r, <- app_assoc. repeat split; try done.
    replace (Z.to_nat (m - 1) - length argv)%nat with 0%nat by lia. done. }
  destruct (scan_run is_tokchar s1 eq_refl) as (tok & s2 & -> & _ & Htok & Hs2).
  assert (Hne : tok <> []).
  { intros ->. simpl in *. unfold is_tokchar in Hs2. rewrite Hnul1, Hs1 in Hs2. done. }
  rewrite skip_token_app by done.
  rewrite (app_assoc (pre ++ bl) tok s2), peek_app_length.
  assert (Hk : (length argv < Z.to_nat (m - 1))%nat) by lia.
  destruct (is_nul (peek s2 0)) eqn:Hnul2; simpl.
  - destruct (IH ((pre ++ bl) ++ tok) s2 (argv ++ [length (pre ++ bl)]))
      as (s2' & offs & Heq & Hlen & Hpk & Htoks).
    { rewrite !length_app in Hfuel. destruct tok; [done|]. simpl in Hfuel. lia. }
    rewrite Heq. exists (bl ++ tok ++ s2'), (length (pre ++ bl) :: offs).
    split; [by rewrite <- !app_assoc|]. split; [rewrite !length_app; lia|].
    split. { destruct bl; [destruct tok; done|done]. }
    unfold spec_tokens in *. rewrite c_str_nul in Htoks by done.
    simpl in Htoks. rewrite take_nil in Htoks.
    rewrite <- !app_assoc in Htoks. rewrite <- ?app_assoc. simpl.
    rewrite Htoks.
    rewrite c_str_blanks, c_str_tok, (c_str_nul s2), app_nil_r by done.
    rewrite split_blanks_skip, split_blanks_last by done.
    unfold cstr_at. rewrite (app_assoc pre bl), drop_app_length.
    rewrite c_str_tok by done. rewrite c_str_nul by (by rewrite Hpk).
    rewrite app_nil_r.
    destruct (Z.to_nat (m - 1) - length argv)%nat eqn:Hd; [lia|]. simpl. by rewrite take_nil.
  - destruct s2 as [|b s3]; [done|].
    assert (Hb : is_blank b = true).
    { unfold peek in Hs2, Hnul2. simpl in *. unfold is_tokchar in Hs2.
      rewrite Hnul2 in Hs2. simpl in Hs2. by destruct (is_blank b). }
    replace (<[length ((pre ++ bl) ++ tok):=NUL]> (((pre ++ bl) ++ tok) ++ b :: s3))
      with ((((pre ++ bl) ++ tok) ++ [NUL]) ++ s3).
    2:{ rewrite insert_app_r_alt by lia. rewrite Nat.sub_diag. simpl.
        by rewrite <- (app_assoc _ [NUL]). }
    replace (S (length ((pre ++ bl) ++ tok))) with (length (((pre ++ bl) ++ tok) ++ [NUL])).
    2:{ rewrite (length_app _ [NUL]). simpl. lia. }
    destruct (IH (((pre ++ bl) ++ tok) ++ [NUL]) s3 (argv ++ [length (pre ++ bl)]))
      as (s3' & offs & Heq & Hlen & Hpk & Htoks).
    { rewrite !length_app in Hfuel. simpl in Hfuel. lia. }
    rewrite Heq. exists (bl ++ tok ++ NUL :: s3'), (length (pre ++ bl) :: offs).
    split. { rewrite <- !app_assoc. simpl. done. }
    split. { rewrite !length_app. simpl. lia. }
    split. { destruct bl; [destruct tok; done|done]. }
    rewrite <- !app_assoc in Htoks. rewrite <- ?app_assoc. simpl in Htoks |- *.
    rewrite Htoks. unfold spec_tokens.
    rewrite c_str_blanks, c_str_tok by done.
    replace (c_str (b :: s3)) with (b :: c_str s3).
    2:{ unfold c_str. simpl. by rewrite (blank_not_nul b Hb). }
    rewrite split_blanks_skip, split_blanks_token by done.
    unfold cstr_at. rewrite (app_assoc pre bl), drop_app_length.
    rewrite c_str_tok by done. rewrite (c_str_nul (NUL :: s3')) by done.
    rewrite app_nil_r, length_app. simpl.
    destruct (Z.to_nat (m - 1) - length argv)%nat eqn:Hd; [lia|]. simpl.
    do 2 f_equal. lia.
Qed.

Lemma tokens_of_offsets line' (offs : list nat) argc :
  tokens_of (Parsed line' (map Some offs ++ [None]) argc) = map (cstr_at line') offs.
Proof.
  unfold tokens_of. cbn [p_argv p_line].
  induction offs as [|o offs IH]; [done|]. simpl. by rewrite IH.
Qed.

(** [parse_tokens] always returns, and what it returns is the first
    [max_args - 1] tokens of the reference splitter. *)
Lemma parse_tokens_spec line m :
  exists r,
    parse_tokens line m = Some r /\
    length (p_line r) = length line /\
    tokens_of r = take (Z.to_nat (m - 1)) (spec_tokens line) /\
    p_argc r = Z.of_nat (length (tokens_of r)) /\
    Z.of_nat (length (p_argv r)) = p_argc r + 1.
Proof.
  destruct (parse_loop_spec (S (length line)) m [] line []) as (l' & offs & Hp & Hlen & _ & Htoks);
    [lia|].
  change ([] ++ line) with line in Hp. change (length []) with 0%nat in Hp.
  change ([] ++ l') with l' in Hp, Htoks. change ([] ++ offs) with offs in Hp.
  unfold parse_tokens. rewrite Hp. eexists. split; [done|].
  cbn [p_line p_argc p_argv]. split; [done|]. rewrite tokens_of_offsets.
  split; [by rewrite Htoks, Nat.sub_0_r|].
  rewrite length_map, length_app, length_map. simpl. lia.
Qed.

(** ** Observations distribute over the history *)

Lemma output_app fd tr1 tr2 : output fd (tr1 ++ tr2) = output fd tr1 ++ output fd tr2.
Proof. unfold output. by rewrite map_app, concat_app. Qed.

Lemma forks_app tr1 tr2 : forks (tr1 ++ tr2) = (forks tr1 + forks tr2)%nat.
Proof. unfold forks. by rewrite List.filter_app, length_app. Qed.

Lemma in_child_app tr1 tr2 : in_child (tr1 ++ tr2) = in_child tr1 || in_child tr2.
Proof. unfold in_child. apply existsb_app. Qed.

Lemma write_failed_app tr1 tr2 :
  write_failed (tr1 ++ tr2) = write_failed tr1 || write_failed tr2.
Proof. unfold write_failed. apply existsb_app. Qed.

Lemma cwd_after_app start tr1 tr2 :
  cwd_after start (tr1 ++ tr2) = cwd_after (cwd_after start tr1) tr2.
Proof. unfold cwd_after. apply fold_left_app. Qed.

(** ** Writing *)

Lemma writes_forks fd evs : Forall (is_write_to fd) evs -> forks evs = 0%nat.
Proof.
  induction 1 as [|e evs (d & r & ->) _ IH]; [done|].
  done.
Qed.

Lemma writes_in_child fd evs : Forall (is_write_to fd) evs -> in_child evs = false.
Proof. induction 1 as [|e evs (d & r & ->) _ IH]; [done|]. done. Qed.

Lemma writes_cwd fd evs start : Forall (is_write_to fd) evs -> cwd_after start evs = start.
Proof. induction 1 as [|e evs (d & r & ->) _ IH]; [done|]. done. Qed.

Lemma writes_other_output fd fd' evs :
  Forall (is_write_to fd) evs -> fd' <> fd -> output fd' evs = [].
Proof.
  intros H Hne. induction H as [|e evs (d & r & ->) _ IH]; [done|].
  unfold output in *. simpl. rewrite IH, app_nil_r.
  destruct r; [|done]. destruct (Z.eqb_spec fd fd'); [congruence|done].
Qed.

Lemma write_all_ok E fuel fd buf tr :
  writes_progress E -> (length buf <= fuel)%nat ->
  exists evs, write_all E fuel fd buf tr = Ret tt (tr ++ evs) /\
    Forall (is_write_to fd) evs /\ output fd evs = buf /\ write_failed evs = false.
Proof.
  intros Hp. revert buf tr. induction fuel as [|fuel IH]; intros buf tr Hfuel.
  - destruct buf; [|simpl in Hfuel; lia]. exists []. by rewrite app_nil_r.
  - destruct buf as [|c buf]. { exists []. by rewrite app_nil_r. }
    simpl. unfold bind, sys_write. destruct (Hp tr fd (c :: buf)) as [k ->]; [done|].
    cbn [option_map].
    set (n := Nat.min (S k) (length (c :: buf))).
    assert (Hn : (1 <= n <= length (c :: buf))%nat) by (subst n; simpl; lia).
    destruct (IH (drop n (c :: buf)) (tr ++ [EvWrite fd (c :: buf) (Some n)])) as (evs & -> & Hw & Ho & Hf).
    { rewrite length_drop. simpl in *. lia. }
    exists (EvWrite fd (c :: buf) (Some n) :: evs). split; [by rewrite <- app_assoc|].
    split; [constructor; [by eexists _, _|done]|].
    split; [|done].
    change (output fd (EvWrite fd (c :: buf) (Some n) :: evs))
      with (event_output fd (EvWrite fd (c :: buf) (Some n)) ++ output fd evs).
    rewrite Ho. cbn [event_output]. rewrite Z.eqb_refl. apply take_drop.
Qed.

(** Without any assumption on the oracle: [write_all] returns after
    writing everything, or exits with status 1 on a failed write. *)
Lemma write_all_cases E fuel fd buf tr :
  match write_all E fuel fd buf tr with
  | Ret _ tr' =>
      exists evs, tr' = tr ++ evs /\ Forall (is_write_to fd) evs /\
        output fd evs = buf /\ write_failed evs = false
  | Exited c tr' =>
      c = 1 /\ exists evs data, tr' = tr ++ evs ++ [EvWrite fd data None] /\
        Forall (is_write_to fd) evs /\ write_failed evs = false
  | OutOfFuel => True
  | _ => False
  end.
Proof.
  revert buf tr. induction fuel as [|fuel IH]; intros buf tr.
  - destruct buf; simpl; [|done]. exists []. by rewrite app_nil_r.
  - destruct buf as [|c buf]. { exists []. by rewrite app_nil_r. }
    simpl. unfold bind, sys_write.
    destruct (env_write E tr fd (c :: buf)) as [k|]; cbn [option_map].
    2:{ split; [done|]. by exists [], (c :: buf). }
    set (n := Nat.min k (length (c :: buf))).
    specialize (IH (drop n (c :: buf)) (tr ++ [EvWrite fd (c :: buf) (Some n)])).
    destruct (write_all E fuel fd (drop n (c :: buf)) _) as [[] tr'|code tr'|?|?|]; try done.
    + destruct IH as (evs & -> & Hw & Ho & Hf).
      exists (EvWrite fd (c :: buf) (Some n) :: evs). split; [by rewrite <- app_assoc|].
      split; [constructor; [by eexists _, _|done]|]. split; [|done].
      change (output fd (EvWrite fd (c :: buf) (Some n) :: evs))
        with (event_output fd (EvWrite fd (c :: buf) (Some n)) ++ output fd evs).
      rewrite Ho. cbn [event_output]. rewrite Z.eqb_refl. apply take_drop.
    + destruct IH as (-> & evs & data & -> & Hw & Hf). split; [done|].
      exists (EvWrite fd (c :: buf) (Some n) :: evs), data.
      split; [by rewrite <- !app_assoc|]. split; [|done].
      constructor; [by eexists _, _|done].
Qed.

(** ** Decimal printing *)

Lemma decimal_value_snoc s c :
  decimal_value (s ++ [c]) = 10 * decimal_value s + (Z.of_nat (nat_of_ascii c) - 48).
Proof. unfold decimal_value. by rewrite fold_left_app. Qed.

Lemma digit_char_code d : 0 <= d < 10 -> Z.of_nat (nat_of_ascii (digit_char d)) = 48 + d.
Proof.
  intros Hd. unfold digit_char. rewrite nat_ascii_embedding by lia. lia.
Qed.

Lemma u32_digits_value room x :
  0 <= x < 10 ^ Z.of_nat room -> decimal_value (rev (u32_digits room x)) = x.
Proof.
  revert x. induction room as [|room IH]; intros x Hx.
  - simpl in *. change (10 ^ 0) with 1 in Hx. unfold decimal_value. simpl. lia.
  - rewrite Nat2Z.inj_succ, Z.pow_succ_r in Hx by lia. simpl.
    destruct (Z.gtb_spec x 0) as [Hpos|Hz].
    + simpl. rewrite decimal_value_snoc, IH.
      2:{ split; [apply Z.div_pos; lia|]. apply Z.div_lt_upper_bound; lia. }
      rewrite digit_char_code by (apply Z.mod_pos_bound; lia).
      pose proof (Z.div_mod x 10). lia.
    + unfold decimal_value. simpl. lia.
Qed.

Lemma u32_digits_digits room x : 0 <= x -> forallb is_digit (u32_digits room x) = true.
Proof.
  revert x. induction room as [|room IH]; intros x Hx; simpl; [done|].
  destruct (Z.gtb_spec x 0) as [Hpos|Hz]; [|done]. cbn [forallb].
  rewrite IH by (apply Z.div_pos; lia). rewrite andb_true_r.
  unfold is_digit. rewrite digit_char_code by (apply Z.mod_pos_bound; lia).
  pose proof (Z.mod_pos_bound x 10). lia.
Qed.

Lemma u32_to_str_value x : 0 <= x <= UINT_MAX -> decimal_value (u32_to_str x) = x.
Proof.
  intros Hx. unfold u32_to_str. destruct (Z.eqb_spec x 0) as [->|Hne]; [done|].
  apply u32_digits_value. unfold UINT_MAX in Hx. simpl Z.of_nat.
  assert (2 ^ 32 < 10 ^ 32) by (vm_compute; done). lia.
Qed.

Lemma u32_to_str_digits x : 0 <= x -> forallb is_digit (u32_to_str x) = true.
Proof.
  intros Hx. unfold u32_to_str. destruct (Z.eqb_spec x 0) as [->|Hne]; [done|].
  rewrite forallb_forall. intros c Hc. apply in_rev in Hc.
  pose proof (u32_digits_digits 32 x Hx) as H. rewrite forallb_forall in H. by apply H.
Qed.

Lemma u32_to_str_short x : 0 <= x -> (length (u32_to_str x) <= 32)%nat.
Proof.
  intros Hx. unfold u32_to_str. destruct (x =? 0); [simpl; lia|].
  rewrite length_rev. generalize 32%nat. intros n. revert x Hx.
  induction n as [|n IH]; intros x Hx; simpl; [lia|].
  destruct (x >? 0); simpl; [|lia]. specialize (IH (x / 10)).
  assert (0 <= x / 10) by (apply Z.div_pos; lia). lia.
Qed.

Lemma u32_digits_length room x n :
  0 <= x < 10 ^ Z.of_nat n -> (length (u32_digits room x) <= n)%nat.
Proof.
  revert x n. induction room as [|room IH]; intros x n Hx; [simpl; lia|].
  cbn [u32_digits]. destruct (Z.gtb_spec x 0) as [Hpos|Hz]; [|simpl; lia].
  destruct n as [|n]. { change (10 ^ Z.of_nat 0) with 1 in Hx. lia. }
  cbn [length]. rewrite Nat2Z.inj_succ, Z.pow_succ_r in Hx by lia.
  assert (length (u32_digits room (x / 10)) <= n)%nat; [|lia].
  apply IH. split; [apply Z.div_pos; lia|]. apply Z.div_lt_upper_bound; lia.
Qed.

Lemma u32_digits_last room x :
  0 < x -> (0 < room)%nat -> x < 10 ^ Z.of_nat room ->
  exists d ds, rev (u32_digits room x) = digit_char d :: ds /\ 1 <= d <= 9.
Proof.
  revert x. induction room as [|room IH]; intros x Hx Hroom Hlt; [lia|].
  cbn [u32_digits]. destruct (Z.gtb_spec x 0) as [_|]; [|lia].
  rewrite Nat2Z.inj_succ, Z.pow_succ_r in Hlt by lia.
  destruct (Z.eq_dec (x / 10) 0) as [Hq|Hq].
  - exists (x mod 10), []. rewrite Hq.
    assert (x = x mod 10) by (pose proof (Z.div_mod x 10); lia).
    pose proof (Z.mod_pos_bound x 10).
    split; [|lia]. by destruct room.
  - assert (0 < x / 10) by (pose proof (Z.div_pos x 10); lia).
    destruct room as [|room']. { change (10 ^ Z.of_nat 0) with 1 in Hlt. 
      assert (x / 10 < 1) by (apply Z.div_lt_upper_bound; lia). lia. }
    destruct (IH (x / 10)) as (d & ds & Heq & Hd); [lia|lia| |].
    { apply Z.div_lt_upper_bound; lia. }
    exists d, (ds ++ [digit_char (x mod 10)]). cbn [rev]. rewrite Heq. done.
Qed.

Lemma to_uint_range z : 0 <= to_uint z <= UINT_MAX.
Proof. unfold to_uint, UINT_MAX. pose proof (Z.mod_pos_bound z (2 ^ 32)). lia. Qed.

Lemma to_uint_small z : 0 <= z <= UINT_MAX -> to_uint z = z.
Proof. unfold to_uint, UINT_MAX. intros H. apply Z.mod_small. lia. Qed.

(** The numeral of [u32_to_str] is canonical: digits, at least one, and no
    leading zero unless it is the numeral of 0. *)
Lemma u32_to_str_canonical x :
  0 <= x <= UINT_MAX ->
  forallb is_digit (u32_to_str x) = true /\ u32_to_str x <> [] /\
  (u32_to_str x = [digit_char 0] \/
   exists d ds, u32_to_str x = digit_char d :: ds /\ 1 <= d <= 9).
Proof.
  intros Hx. split; [apply u32_to_str_digits; lia|].
  assert (Hcases : u32_to_str x = [digit_char 0] \/
            exists d ds, u32_to_str x = digit_char d :: ds /\ 1 <= d <= 9).
  { unfold u32_to_str. destruct (Z.eqb_spec x 0) as [->|Hne]; [by left|]. right.
    assert (H32 : 2 ^ 32 - 1 < 10 ^ Z.of_nat 32) by (vm_compute; done).
    unfold UINT_MAX in Hx. apply u32_digits_last; lia. }
  split; [|done]. destruct Hcases as [->|(d & ds & -> & _)]; done.
Qed.

(** ** Sequences of prints *)

Lemma prints_print_str E fuel fd s :
  writes_progress E -> (length s <= fuel)%nat -> prints fd (print_str E fuel fd s) s.
Proof. intros Hp Hf tr. by apply write_all_ok. Qed.

Lemma prints_seq fd m1 m2 a b :
  prints fd m1 a -> prints fd m2 b -> prints fd (bind m1 (fun _ => m2)) (a ++ b).
Proof.
  intros H1 H2 tr. destruct (H1 tr) as (e1 & Heq1 & Hw1 & Ho1 & Hf1).
  destruct (H2 (tr ++ e1)) as (e2 & Heq2 & Hw2 & Ho2 & Hf2).
  exists (e1 ++ e2). unfold bind. rewrite Heq1, Heq2.
  split; [by rewrite app_assoc|]. split; [by apply Forall_app|].
  split; [by rewrite output_app, Ho1, Ho2|].
  by rewrite write_failed_app, Hf1, Hf2.
Qed.

Lemma report_status_prints E fuel status :
  writes_progress E -> (64 <= fuel)%nat ->
  prints STDOUT_FILENO (report_status E fuel status) (BANNER ++ status_text E status ++ [LF]).
Proof.
  intros Hp Hf. unfold report_status, status_text.
  apply prints_seq. { apply prints_print_str; [done|simpl; lia]. }
  destruct (WIFEXITED E status); [|destruct (WIFSIGNALED E status)].
  - rewrite <- app_assoc. apply prints_seq; [|apply prints_seq].
    + apply prints_print_str; [done|simpl; lia].
    + apply prints_print_str; [done|].
      pose proof (u32_to_str_short (to_uint (WEXITSTATUS E status))).
      pose proof (to_uint_range (WEXITSTATUS E status)). lia.
    + apply prints_print_str; [done|simpl; lia].
  - rewrite <- app_assoc. apply prints_seq; [|apply prints_seq].
    + apply prints_print_str; [done|simpl; lia].
    + apply prints_print_str; [done|].
      pose proof (u32_to_str_short (to_uint (WTERMSIG E status))).
      pose proof (to_uint_range (WTERMSIG E status)). lia.
    + apply prints_print_str; [done|simpl; lia].
  - apply prints_print_str; [done|simpl; lia].
Qed.

Lemma print_unknown_command_prints E fuel cmd :
  writes_progress E -> (20 <= fuel)%nat -> (length cmd <= fuel)%nat ->
  prints STDERR_FILENO (print_unknown_command E fuel cmd)
    (str "]" ++ cmd ++ str "]: Unknown Command[" ++ [LF]).
Proof.
  intros Hp Hf Hc. unfold print_unknown_command.
  apply prints_seq; [|apply prints_seq]; apply prints_print_str; try done; simpl; lia.
Qed.

(** ** Stores into arrays *)

Lemma store_app pre x rest c tr :
  store (pre ++ x :: rest) (strlen pre) c tr = Ret (pre ++ c :: rest) tr.
Proof.
  unfold store, strlen, ret. rewrite length_app. simpl.
  destruct (Z.leb_spec 0 (Z.of_nat (length pre))); [|lia].
  destruct (Z.ltb_spec (Z.of_nat (length pre)) (Z.of_nat (length pre + S (length rest)))); [|lia].
  simpl. rewrite Nat2Z.id. rewrite insert_app_r_alt by lia. by rewrite Nat.sub_diag.
Qed.

Lemma memcpy_app pre mid rest src tr :
  length mid = length src ->
  memcpy (pre ++ mid ++ rest) (strlen pre) src tr = Ret (pre ++ src ++ rest) tr.
Proof.
  intros Hlen. unfold memcpy, strlen, ret. rewrite !length_app.
  destruct (Z.leb_spec 0 (Z.of_nat (length pre))); [|lia].
  destruct (Z.leb_spec (Z.of_nat (length pre) + Z.of_nat (length src))
    (Z.of_nat (length pre + (length mid + length rest)))); [|lia].
  simpl. rewrite Nat2Z.id. rewrite take_app_length.
  rewrite drop_app_add'  by done. rewrite <- Hlen. by rewrite drop_app_length.
Qed.

Lemma split_at (l : list ascii) n :
  (n <= length l)%nat -> exists a b, l = a ++ b /\ length a = n.
Proof.
  intros H. exists (take n l), (drop n l). split; [by rewrite take_drop|].
  rewrite length_take. lia.
Qed.

Lemma c_str_cut xs rest : c_str (xs ++ NUL :: rest) = c_str xs.
Proof.
  unfold c_str. induction xs as [|x xs IH]; simpl; [done|].
  destruct (negb (is_nul x)); simpl; [by rewrite IH|done].
Qed.

Lemma c_str_id s : is_c_string s -> c_str s = s.
Proof.
  intros H. rewrite <- (app_nil_r s) at 1. rewrite c_str_app by done.
  by rewrite app_nil_r.
Qed.

(** ** Path construction *)

Lemma build_path_ok dir cmd out_path tr :
  strlen dir + 1 + strlen cmd + 1 <= strlen out_path ->
  exists rest,
    build_path dir cmd out_path tr = Ret (candidate dir cmd ++ NUL :: rest) tr /\
    length (candidate dir cmd ++ NUL :: rest) = length out_path.
Proof.
  unfold strlen. intros Hfit.
  destruct (split_at out_path (length dir)) as (a & r1 & -> & Ha); [lia|].
  rewrite length_app in Hfit. destruct r1 as [|x r1]; [simpl in Hfit; lia|].
  destruct (split_at r1 (length cmd)) as (b & r2 & -> & Hb); [simpl in Hfit; lia|].
  rewrite length_cons, length_app in Hfit.
  destruct r2 as [|y rest]; [simpl in Hfit; lia|].
  exists rest. unfold build_path, bind. cbv zeta.
  rewrite (memcpy_app [] a (x :: b ++ y :: rest) dir tr Ha
            : memcpy (a ++ x :: b ++ y :: rest) 0 dir tr = Ret (dir ++ x :: b ++ y :: rest) tr).
  rewrite Z.add_0_l.
  rewrite store_app.
  replace (strlen dir + 1) with (strlen (dir ++ ["/"%char])).
  2:{ unfold strlen. rewrite length_app. simpl. lia. }
  replace (dir ++ "/"%char :: b ++ y :: rest) with ((dir ++ ["/"%char]) ++ b ++ y :: rest).
  2:{ by rewrite <- app_assoc. }
  rewrite memcpy_app by done.
  replace (strlen (dir ++ ["/"%char]) + strlen cmd) with (strlen ((dir ++ ["/"%char]) ++ cmd)).
  2:{ unfold strlen. rewrite !length_app. simpl. lia. }
  rewrite (app_assoc _ cmd), store_app.
  unfold candidate. simpl str. rewrite <- !app_assoc. simpl.
  split; [done|]. rewrite !length_app. simpl. rewrite !length_app. simpl. lia.
Qed.

Lemma try_dir_fits E dir cmd out_path out_sz tr :
  strlen out_path = out_sz ->
  strlen dir + 1 + strlen cmd + 1 <= out_sz ->
  exists out_path',
    let p := c_str (candidate dir cmd) in
    try_dir E dir cmd out_path out_sz tr
      = Ret (env_access E tr p, out_path') (tr ++ [EvAccess p (env_access E tr p)]) /\
    length out_path' = length out_path /\
    cstr_at out_path' 0 = p.
Proof.
  intros Hsz Hfit. unfold try_dir.
  destruct (Z.leb_spec (strlen dir + 1 + strlen cmd + 1) out_sz); [|lia].
  destruct (build_path_ok dir cmd out_path tr) as (rest & Heq & Hlen); [lia|].
  exists (candidate dir cmd ++ NUL :: rest). simpl. unfold bind. rewrite Heq.
  unfold is_executable, access_x, ret, cstr_at. rewrite drop_0, c_str_cut. done.
Qed.

Lemma try_dir_long E dir cmd out_path out_sz tr :
  out_sz < strlen dir + 1 + strlen cmd + 1 ->
  try_dir E dir cmd out_path out_sz tr = Ret (false, out_path) tr.
Proof.
  intros Hlong. unfold try_dir.
  by destruct (Z.leb_spec (strlen dir + 1 + strlen cmd + 1) out_sz); [lia|].
Qed.

(** ** The resolver *)

Lemma strlen_candidate dir cmd : strlen (candidate dir cmd) + 1 = strlen dir + 1 + strlen cmd + 1.
Proof. unfold candidate, strlen. rewrite !length_app. simpl. lia. Qed.

Lemma candidate_c_string dir cmd :
  is_c_string dir -> is_c_string cmd -> c_str (candidate dir cmd) = candidate dir cmd.
Proof.
  intros Hd Hc. apply c_str_id. unfold is_c_string, candidate in *.
  rewrite !forallb_app, Hd, Hc. done.
Qed.

(** Both blocks of [find_command_path] in one statement. *)
Lemma try_dir_spec E dir cmd out_path out_sz tr :
  strlen out_path = out_sz ->
  exists out_path', length out_path' = length out_path /\
    if strlen (candidate dir cmd) + 1 <=? out_sz then
      let p := c_str (candidate dir cmd) in
      try_dir E dir cmd out_path out_sz tr
        = Ret (env_access E tr p, out_path') (tr ++ [EvAccess p (env_access E tr p)]) /\
      cstr_at out_path' 0 = p
    else
      try_dir E dir cmd out_path out_sz tr = Ret (false, out_path') tr /\ out_path' = out_path.
Proof.
  intros Hsz. rewrite strlen_candidate.
  destruct (Z.leb_spec (strlen dir + 1 + strlen cmd + 1) out_sz) as [Hfit|Hlong].
  - destruct (try_dir_fits E dir cmd out_path out_sz tr Hsz Hfit) as (o & Heq & Hlen & Hp).
    by exists o.
  - exists out_path. split; [done|]. split; [|done]. by apply try_dir_long.
Qed.

Lemma find_command_path_total E cmd out_path out_sz tr :
  strlen out_path = out_sz ->
  exists found out_path' evs,
    find_command_path E cmd out_path out_sz tr = Ret (found, out_path') (tr ++ evs) /\
    length out_path' = length out_path /\
    Forall is_access evs /\ (found = 0 \/ found = 1).
Proof.
  intros Hsz. unfold find_command_path, bind.
  assert (Hhome : exists f1 o1 e1,
    match env_home E with
    | Some (c :: home') => try_dir E (c :: home') cmd out_path out_sz
    | _ => ret (false, out_path)
    end tr = Ret (f1, o1) (tr ++ e1) /\ length o1 = length out_path /\ Forall is_access e1).
  { destruct (env_home E) as [[|c h]|].
    - exists false, out_path, []. by rewrite app_nil_r.
    - destruct (try_dir_spec E (c :: h) cmd out_path out_sz tr Hsz) as (o & Hlen & H).
      destruct (_ <=? _).
      + destruct H as [-> _]. eexists _, _, [_]. split; [done|]. split; [done|].
        constructor; [by eexists _, _|done].
      + destruct H as [-> ->]. exists false, out_path, []. by rewrite app_nil_r.
    - exists false, out_path, []. by rewrite app_nil_r. }
  destruct Hhome as (f1 & o1 & e1 & -> & Hlen1 & Hacc1).
  destruct f1. { exists 1, o1, e1. auto. }
  destruct (try_dir_spec E (str "/bin") cmd o1 out_sz (tr ++ e1)) as (o & Hlen & H).
  { unfold strlen in *. lia. }
  destruct (_ <=? _).
  - destruct H as [-> _]. destruct (env_access E _ _).
    + eexists 1, o, (e1 ++ [_]). rewrite app_assoc. split; [done|]. split; [lia|].
      split; [|auto]. apply Forall_app. split; [done|]. constructor; [by eexists _, _|done].
    + eexists 0, o, (e1 ++ [_]). rewrite app_assoc. split; [done|]. split; [lia|].
      split; [|auto]. apply Forall_app. split; [done|]. constructor; [by eexists _, _|done].
  - destruct H as [-> ->]. exists 0, o1, e1. auto.
Qed.

Lemma access_forks evs : Forall is_access evs -> forks evs = 0%nat.
Proof. induction 1 as [|e evs (p & ok & ->) _ IH]; done. Qed.

Lemma access_output fd evs : Forall is_access evs -> output fd evs = [].
Proof. induction 1 as [|e evs (p & ok & ->) _ IH]; done. Qed.

(** C3.  [find_command_path] computes the resolution of the specification
    over the search path HOME (when set and not empty), then [/bin]: it
    returns 1 with the first candidate that passes the execute-permission
    test, tried in that order, and 0 when none passes. *)
Theorem resolver_refines E cmd out_path out_sz tr :
  is_c_string cmd ->
  (forall h, env_home E = Some h -> is_c_string h) ->
  strlen out_path = out_sz ->
  exists out_path',
    find_command_path E cmd out_path out_sz tr
      = Ret (match fst (Resolver.resolve_in E (Resolver.search_path (env_home E)) cmd out_sz tr) with
             | Some _ => 1 | None => 0 end, out_path')
            (snd (Resolver.resolve_in E (Resolver.search_path (env_home E)) cmd out_sz tr)) /\
    length out_path' = length out_path /\
    forall p, fst (Resolver.resolve_in E (Resolver.search_path (env_home E)) cmd out_sz tr) = Some p ->
      cstr_at out_path' 0 = p.
Proof.
  intros Hcmd Hhome Hsz.
  assert (Hbin : forall o tr0, length o = length out_path ->
    exists out_path',
      (let* (found, out_path) := try_dir E (str "/bin") cmd o out_sz in
       if found then ret (1, out_path) else ret (0, out_path)) tr0
      = Ret (match fst (Resolver.resolve_in E [str "/bin"] cmd out_sz tr0) with
             | Some _ => 1 | None => 0 end, out_path')
            (snd (Resolver.resolve_in E [str "/bin"] cmd out_sz tr0)) /\
      length out_path' = length out_path /\
      forall p, fst (Resolver.resolve_in E [str "/bin"] cmd out_sz tr0) = Some p ->
        cstr_at out_path' 0 = p).
  { intros o tr0 Hlo.
    destruct (try_dir_spec E (str "/bin") cmd o out_sz tr0) as (o' & Hlen & H).
    { unfold strlen in *. lia. }
    cbn [Resolver.resolve_in]. unfold bind.
    rewrite candidate_c_string in H by done.
    destruct (_ <=? _).
    - destruct H as [-> Hp]. cbv zeta. exists o'. destruct (env_access E tr0 _); simpl.
      + split; [done|]. split; [lia|]. by intros p [= <-].
      + split; [done|]. split; [lia|]. done.
    - destruct H as [-> ->]. exists o. simpl. split; [done|]. split; [done|]. done. }
  unfold find_command_path, bind.
  destruct (env_home E) as [[|c h]|] eqn:Hh; cbn [Resolver.search_path].
  - apply (Hbin out_path tr eq_refl).
  - destruct (try_dir_spec E (c :: h) cmd out_path out_sz tr Hsz) as (o' & Hlen & H).
    rewrite candidate_c_string in H by auto.
    cbn [Resolver.resolve_in].
    destruct (_ <=? _).
    + destruct H as [-> Hp]. cbv zeta. destruct (env_access E tr _); cbv beta iota.
      * exists o'. split; [done|]. split; [done|]. by intros p [= <-].
      * destruct (Hbin o' (tr ++ [EvAccess (candidate (c :: h) cmd) false]) Hlen) as (o2 & Heq & Hl2 & Hp2).
        exists o2. unfold bind in Heq. by rewrite Heq.
    + destruct H as [-> ->]. apply (Hbin out_path tr eq_refl).
  - apply (Hbin out_path tr eq_refl).
Qed.

(** ** The executor *)

Lemma digits_no_newline s : forallb is_digit s = true -> existsb (Ascii.eqb LF) s = false.
Proof.
  induction s as [|c s IH]; cbn [existsb forallb]; [done|].
  intros [Hc Hs]%andb_prop. rewrite IH by done. rewrite orb_false_r.
  destruct (Ascii.eqb_spec LF c) as [<-|]; [|done]. by vm_compute in Hc.
Qed.

Lemma status_text_line E status : existsb (Ascii.eqb LF) (status_text E status) = false.
Proof.
  unfold status_text.
  destruct (WIFEXITED E status); [|destruct (WIFSIGNALED E status)].
  - rewrite existsb_app.
    rewrite (digits_no_newline (u32_to_str _)) by (apply u32_to_str_digits, to_uint_range).
    by vm_compute.
  - rewrite existsb_app.
    rewrite (digits_no_newline (u32_to_str _)) by (apply u32_to_str_digits, to_uint_range).
    by vm_compute.
  - done.
Qed.

Lemma path_buf0_length E : strlen (path_buf0 E) = PATH_BUF_SZ.
Proof. unfold strlen. rewrite length_replicate. done. Qed.

(** The parent after a successful [fork]. *)
Lemma execute_external_parent E fuel argv tr pb tr1 pid :
  find_command_path E (nth 0 argv []) (path_buf0 E) PATH_BUF_SZ tr = Ret (1, pb) tr1 ->
  env_fork E tr1 = pid -> 0 < pid ->
  execute_external E fuel argv tr =
    match env_waitpid E (tr1 ++ [EvFork pid]) pid with
    | None => perror E (str "waitpid") (tr1 ++ [EvFork pid; EvWaitpid pid None])
    | Some status =>
        report_status E fuel status (tr1 ++ [EvFork pid; EvWaitpid pid (Some status)])
    end.
Proof.
  intros Hres Hfork Hpid. unfold execute_external, bind. rewrite Hres.
  cbv beta iota. change (1 =? 0) with false. cbv iota. unfold fork. rewrite Hfork.
  destruct (Z.ltb_spec pid 0); [lia|]. destruct (Z.eqb_spec pid 0); [lia|].
  unfold waitpid. rewrite <- !app_assoc. simpl app.
  by destruct (env_waitpid E (tr1 ++ [EvFork pid]) pid).
Qed.

(** ** Reporting how the child ended *)

(** C2.  When the command was resolved, [fork] gave a child and [waitpid]
    succeeded with [status], the shell writes to standard output the banner
    and then exactly one line: the exit code in decimal, between 0 and
    255, when the child exited; the signal number in decimal with another
    message when a signal ended it; a message of unknown status otherwise.
    The number printed is a numeral: digits only, at least one, without a
    leading zero unless it is "0", and of the value in question.  The
    banner does not depend on [status]. *)
Theorem status_report E fuel argv tr pb tr1 pid status :
  find_command_path E (nth 0 argv []) (path_buf0 E) PATH_BUF_SZ tr = Ret (1, pb) tr1 ->
  env_fork E tr1 = pid -> 0 < pid ->
  env_waitpid E (tr1 ++ [EvFork pid]) pid = Some status ->
  writes_progress E -> (64 <= fuel)%nat ->
  (WIFEXITED E status = true -> 0 <= WEXITSTATUS E status <= 255) ->
  exists evs line,
    execute_external E fuel argv tr
      = Ret tt (tr1 ++ [EvFork pid; EvWaitpid pid (Some status)] ++ evs) /\
    Forall (is_write_to STDOUT_FILENO) evs /\
    output STDOUT_FILENO evs = (str "Command executed successfully." ++ [LF]) ++ line ++ [LF] /\
    output STDERR_FILENO evs = [] /\
    existsb (Ascii.eqb LF) line = false /\
    if WIFEXITED E status then
      exists num, line = str "Command finished. Return code: " ++ num /\
        decimal_value num = WEXITSTATUS E status /\ 0 <= decimal_value num <= 255 /\
        forallb is_digit num = true /\ num <> [] /\
        (num = [digit_char 0] \/ exists d ds, num = digit_char d :: ds /\ 1 <= d <= 9)
    else if WIFSIGNALED E status then
      exists num, line = str "Command terminated by signal: " ++ num /\
        decimal_value num = to_uint (WTERMSIG E status) /\
        forallb is_digit num = true /\ num <> [] /\
        (num = [digit_char 0] \/ exists d ds, num = digit_char d :: ds /\ 1 <= d <= 9)
    else line = str "Command finished with unknown status.".
Proof.
  intros Hres Hfork Hpid Hwait Hp Hfuel Hrange.
  rewrite (execute_external_parent E fuel argv tr pb tr1 pid Hres Hfork Hpid), Hwait.
  destruct (report_status_prints E fuel status Hp Hfuel
              (tr1 ++ [EvFork pid; EvWaitpid pid (Some status)])) as (evs & Heq & Hw & Ho & _).
  exists evs, (status_text E status). rewrite Heq, <- app_assoc.
  split; [done|]. split; [done|]. split; [done|].
  split; [by apply (writes_other_output STDOUT_FILENO)|].
  split; [apply status_text_line|].
  unfold status_text. destruct (WIFEXITED E status); [|destruct (WIFSIGNALED E status)].
  - eexists. split; [done|]. rewrite to_uint_small by (unfold UINT_MAX; lia).
    rewrite u32_to_str_value by (unfold UINT_MAX; lia).
    split; [done|]. split; [lia|]. apply u32_to_str_canonical. unfold UINT_MAX. lia.
  - eexists. split; [done|]. split; [apply u32_to_str_value, to_uint_range|].
    apply u32_to_str_canonical, to_uint_range.
  - done.
Qed.

(** C6.  When [waitpid] fails, [execute_external] reports it with
    [perror("waitpid")] and returns to the loop of [main]: standard output
    receives nothing, neither the banner nor a status line. *)
Theorem wait_failure E fuel argv tr pb tr1 pid :
  find_command_path E (nth 0 argv []) (path_buf0 E) PATH_BUF_SZ tr = Ret (1, pb) tr1 ->
  env_fork E tr1 = pid -> 0 < pid ->
  env_waitpid E (tr1 ++ [EvFork pid]) pid = None ->
  let tr2 := tr1 ++ [EvFork pid; EvWaitpid pid None] in
  let tr3 := tr2 ++ [EvPerror (str "waitpid") (env_strerror E tr2)] in
  execute_external E fuel argv tr = Ret tt tr3 /\
  output STDOUT_FILENO tr3 = output STDOUT_FILENO tr /\
  output STDERR_FILENO tr3
    = output STDERR_FILENO tr ++ str "waitpid: " ++ env_strerror E tr2 ++ [LF].
Proof.
  intros Hres Hfork Hpid Hwait tr2 tr3.
  rewrite (execute_external_parent E fuel argv tr pb tr1 pid Hres Hfork Hpid), Hwait.
  split; [done|].
  destruct (find_command_path_total E (nth 0 argv []) (path_buf0 E) PATH_BUF_SZ tr
              (path_buf0_length E)) as (f & o & e0 & Heq & _ & Hacc & _).
  rewrite Hres in Heq. injection Heq as _ _ ->.
  subst tr3 tr2. rewrite !output_app, !(access_output _ e0 Hacc), !app_nil_r.
  split; [done|]. f_equal. unfold output. simpl. by rewrite app_nil_r.
Qed.

Lemma forks_write fd data res : forks [EvWrite fd data res] = 0%nat.
Proof. reflexivity. Qed.

(** C5.  When [find_command_path] finds nothing, [execute_external] never
    forks, however it ends; and when writes go through it prints the
    message "]<name>]: Unknown Command[" and a newline on standard error,
    nothing on standard output, and returns. *)
Theorem unknown_command E fuel argv tr pb tr1 :
  find_command_path E (nth 0 argv []) (path_buf0 E) PATH_BUF_SZ tr = Ret (0, pb) tr1 ->
  (forall tr', trace_of (execute_external E fuel argv tr) = Some tr' -> forks tr' = forks tr) /\
  (writes_progress E -> (20 <= fuel)%nat -> (length (nth 0 argv []) <= fuel)%nat ->
   exists tr',
     execute_external E fuel argv tr = Ret tt tr' /\
     output STDERR_FILENO tr'
       = output STDERR_FILENO tr ++ str "]" ++ nth 0 argv [] ++ str "]: Unknown Command[" ++ [LF] /\
     output STDOUT_FILENO tr' = output STDOUT_FILENO tr /\
     forks tr' = forks tr).
Proof.
  intros Hres.
  destruct (find_command_path_total E (nth 0 argv []) (path_buf0 E) PATH_BUF_SZ tr
              (path_buf0_length E)) as (f & o & e0 & Heq & _ & Hacc & _).
  rewrite Hres in Heq. injection Heq as _ _ ->.
  assert (Hrun : execute_external E fuel argv tr
                 = print_unknown_command E fuel (nth 0 argv []) (tr ++ e0)).
  { unfold execute_external, bind. by rewrite Hres. }
  rewrite Hrun. split.
  - unfold print_unknown_command, bind, print_str. intros tr'.
    pose proof (write_all_cases E fuel STDERR_FILENO (str "]") (tr ++ e0)) as H1.
    destruct (write_all E fuel STDERR_FILENO (str "]") (tr ++ e0)) as [[] t1|c t1|?|?|]; try done.
    2:{ destruct H1 as (_ & e1 & d & -> & Hw & _). intros [= <-].
        rewrite !forks_app, (access_forks _ Hacc), (writes_forks _ _ Hw), forks_write. lia. }
    destruct H1 as (e1 & -> & Hw1 & _).
    pose proof (write_all_cases E fuel STDERR_FILENO (nth 0 argv []) ((tr ++ e0) ++ e1)) as H2.
    destruct (write_all E fuel STDERR_FILENO (nth 0 argv []) _) as [[] t2|c t2|?|?|]; try done.
    2:{ destruct H2 as (_ & e2 & d & -> & Hw & _). intros [= <-].
        rewrite !forks_app, (access_forks _ Hacc), (writes_forks _ _ Hw1), (writes_forks _ _ Hw),
          forks_write. lia. }
    destruct H2 as (e2 & -> & Hw2 & _).
    pose proof (write_all_cases E fuel STDERR_FILENO (str "]: Unknown Command[" ++ [LF])
                  (((tr ++ e0) ++ e1) ++ e2)) as H3.
    destruct (write_all E fuel STDERR_FILENO (str "]: Unknown Command[" ++ [LF]) _)
      as [[] t3|c t3|?|?|]; try done.
    + destruct H3 as (e3 & -> & Hw3 & _). intros [= <-].
      rewrite !forks_app, (access_forks _ Hacc), (writes_forks _ _ Hw1),
        (writes_forks _ _ Hw2), (writes_forks _ _ Hw3). lia.
    + destruct H3 as (_ & e3 & d & -> & Hw3 & _). intros [= <-].
      rewrite !forks_app, (access_forks _ Hacc), (writes_forks _ _ Hw1),
        (writes_forks _ _ Hw2), (writes_forks _ _ Hw3), forks_write. lia.
  - intros Hp Hf Hc.
    destruct (print_unknown_command_prints E fuel (nth 0 argv []) Hp Hf Hc (tr ++ e0))
      as (evs & -> & Hw & Ho & _).
    eexists. split; [done|].
    rewrite !output_app, !forks_app, Ho, (access_output STDERR_FILENO _ Hacc),
      (access_output STDOUT_FILENO _ Hacc), (access_forks _ Hacc),
      (writes_forks _ _ Hw), (writes_other_output STDERR_FILENO STDOUT_FILENO evs Hw), !app_nil_r
      by done.
    split; [done|]. split; [done|]. lia.
Qed.

(** ** The line buffer *)

Lemma quiet_in_child evs : forallb quiet evs = true -> in_child evs = false.
Proof.
  induction evs as [|e evs IH]; [done|]. intros [He H]%andb_prop.
  unfold in_child in *. simpl. rewrite IH by done. by destruct e.
Qed.

Lemma quiet_write_failed evs : forallb quiet evs = true -> write_failed evs = false.
Proof.
  induction evs as [|e evs IH]; [done|]. intros [He H]%andb_prop.
  unfold write_failed in *. simpl. rewrite IH by done. by destruct e.
Qed.

Lemma access_quiet evs : Forall is_access evs -> forallb quiet evs = true.
Proof. induction 1 as [|e evs (p & ok & ->) _ IH]; [done|]. simpl. done. Qed.

Lemma size_t_small z : 0 <= z < 2 ^ 64 -> size_t z = z.
Proof. intros H. unfold size_t, SIZE_WIDTH. by apply Z.mod_small. Qed.

Lemma store_ok buf i c tr :
  0 <= i < strlen buf -> store buf i c tr = Ret (<[Z.to_nat i:=c]> buf) tr.
Proof.
  intros H. unfold store.
  destruct (Z.leb_spec 0 i); [|lia]. destruct (Z.ltb_spec i (strlen buf)); [|lia]. done.
Qed.

Lemma realloc_block_double junk (line : list ascii) cap :
  strlen line = cap ->
  realloc_block junk line (cap * 2) = line ++ replicate (Z.to_nat cap) junk.
Proof.
  unfold strlen, realloc_block. intros H. rewrite take_ge by lia. f_equal. f_equal. lia.
Qed.

(** The growth step alone: lines 84-90. *)
Lemma grow_step E line cap len tr :
  buf_inv line cap len ->
  exists evs, forallb quiet evs = true /\
    ((exists line' cap',
        (if size_t (len + 2) >? cap then
           let new_cap := size_t (cap * 2) in
           let* ok := realloc E new_cap in
           if ok then ret (Some (realloc_block (env_junk E) line new_cap, new_cap)) else ret None
         else ret (Some (line, cap))) tr = Ret (Some (line', cap')) (tr ++ evs) /\
        buf_inv line' cap' len /\ len + 2 <= cap' /\
        (cap' = cap \/ cap' = 2 * cap) /\
        take (Z.to_nat cap) line' = line) \/
     ((if size_t (len + 2) >? cap then
           let new_cap := size_t (cap * 2) in
           let* ok := realloc E new_cap in
           if ok then ret (Some (realloc_block (env_junk E) line new_cap, new_cap)) else ret None
         else ret (Some (line, cap))) tr = Ret None (tr ++ evs))).
Proof.
  intros (Hlen & Hl & Hcap).
  assert (Hmax : PTRDIFF_MAX = 2 ^ 63 - 1) by done.
  rewrite size_t_small by lia.
  destruct (Z.gtb_spec (len + 2) cap) as [Hgrow|Hfit].
  - cbv zeta. rewrite size_t_small by lia. unfold bind, realloc.
    destruct (Z.leb_spec (cap * 2) PTRDIFF_MAX) as [Hok|Hbig]; cbn [andb].
    + destruct (env_alloc E tr (cap * 2)); cbv iota.
      * exists [EvRealloc (cap * 2) true]. split; [done|]. left.
        exists (realloc_block (env_junk E) line (cap * 2)), (cap * 2). split; [done|].
        rewrite realloc_block_double by done.
        split; [|split; [lia|split; [lia|]]].
        -- split; [|lia]. unfold strlen in *. rewrite length_app, length_replicate. lia.
        -- unfold strlen in Hlen. rewrite <- Hlen, Nat2Z.id. by rewrite take_app_length.
      * exists [EvRealloc (cap * 2) false]. split; [done|]. by right.
    + exists [EvRealloc (cap * 2) false]. split; [done|]. by right.
  - exists []. split; [done|]. left. exists line, cap. rewrite app_nil_r.
    split; [done|]. split; [done|]. split; [lia|]. split; [by left|].
    unfold strlen in Hlen. rewrite <- Hlen, Nat2Z.id. apply take_ge. lia.
Qed.

Lemma bind_Ret {A B} (m : M A) (k : A -> M B) tr a tr' :
  m tr = Ret a tr' -> bind m k tr = k a tr'.
Proof. intros H. unfold bind. by rewrite H. Qed.

Lemma take_insert_at (l : list ascii) n c : take n (<[n:=c]> l) = take n l.
Proof. by rewrite take_insert_ge by lia. Qed.

(** One turn of the loop keeps the invariant. *)
Lemma read_line_iter_inv E line cap len tr :
  buf_inv line cap len ->
  exists evs, forallb quiet evs = true /\
    match read_line_iter E line cap len tr with
    | Ret (RlAgain line' cap' len') tr' =>
        tr' = tr ++ evs /\ buf_inv line' cap' len' /\
        (cap' = cap \/ cap' = 2 * cap) /\ len' = len + 1 /\
        take (Z.to_nat len) line' = take (Z.to_nat len) line /\
        exists c, line' !! Z.to_nat len = Some c /\ c <> LF
    | Ret (RlReturn rr lb) tr' =>
        tr' = tr ++ evs /\
        exists line' cap', lb = LineBuf (Some line') cap' /\
          strlen line' = cap' /\ 0 < cap' <= PTRDIFF_MAX /\
          (cap' = cap \/ cap' = 2 * cap) /\
          take (Z.to_nat len) line' = take (Z.to_nat len) line /\
          (rr = -1 \/ rr = 0 \/ (rr = 1 /\ line' !! Z.to_nat len = Some NUL))
    | _ => False
    end.
Proof.
  intros Hinv. pose proof Hinv as (Hlen & Hl & Hcap).
  destruct (grow_step E line cap len tr Hinv) as (e1 & Hq1 & [(l1 & c1 & Heq & Hinv1 & Hroom & Hc1 & Htk)|Heq]).
  2:{ exists e1. split; [done|]. unfold read_line_iter. rewrite (bind_Ret _ _ _ _ _ Heq).
      unfold ret. split; [done|]. exists line, cap. split; [done|]. split; [done|].
      split; [lia|]. split; [by left|]. split; [done|]. by left. }
  destruct Hinv1 as (Hlen1 & _ & Hcap1).
  assert (Hpre : forall l2 : list ascii, take (Z.to_nat len) l2 = take (Z.to_nat len) l1 ->
            take (Z.to_nat len) l2 = take (Z.to_nat len) line).
  { intros l2 ->. rewrite <- Htk. rewrite take_take. f_equal. lia. }
  assert (Hfinish : forall t,
    match read_line_finish l1 c1 len t with
    | Ret (RlReturn rr lb) tr' =>
        tr' = t /\
        exists line' cap', lb = LineBuf (Some line') cap' /\
          strlen line' = cap' /\ 0 < cap' <= PTRDIFF_MAX /\
          (cap' = cap \/ cap' = 2 * cap) /\
          take (Z.to_nat len) line' = take (Z.to_nat len) line /\
          (rr = -1 \/ rr = 0 \/ (rr = 1 /\ line' !! Z.to_nat len = Some NUL))
    | _ => False
    end).
  { intros t. unfold read_line_finish. rewrite (bind_Ret _ _ _ _ _ (store_ok l1 len NUL t ltac:(lia))).
    unfold ret. split; [done|]. eexists _, _. split; [done|].
    split; [unfold strlen in *; rewrite length_insert; lia|].
    split; [lia|]. split; [done|]. split; [apply Hpre, take_insert_at|].
    right; right. split; [done|]. apply list_lookup_insert_eq. unfold strlen in *. lia. }
  unfold read_line_iter. rewrite (bind_Ret _ _ _ _ _ Heq). cbv beta iota.
  unfold bind at 1. unfold sys_read.
  exists (e1 ++ [EvRead (env_read E (tr ++ e1))]).
  split. { rewrite forallb_app, Hq1. by destruct (env_read E (tr ++ e1)). }
  rewrite app_assoc.
  destruct (env_read E (tr ++ e1)) as [| |c].
  - unfold ret. split; [done|]. exists l1, c1. split; [done|]. split; [done|].
    split; [lia|]. split; [done|]. split; [by apply Hpre|]. by left.
  - destruct (Z.eqb_spec len 0) as [Hz|Hnz].
    + unfold ret. split; [done|]. exists l1, c1. split; [done|]. split; [done|].
      split; [lia|]. split; [done|]. split; [by apply Hpre|]. right; by left.
    + pose proof (Hfinish ((tr ++ e1) ++ [EvRead ReadEof])) as Hf.
      destruct (read_line_finish l1 c1 len _) as [[|rr lb] t'| | | |]; try done;
        destruct Hf as [-> Hf]; by split.
  - destruct (Ascii.eqb_spec c LF) as [->|Hne].
    { pose proof (Hfinish ((tr ++ e1) ++ [EvRead (ReadByte LF)])) as Hf.
      destruct (read_line_finish l1 c1 len _) as [[|rr lb] t'| | | |]; try done;
        destruct Hf as [-> Hf]; by split. }
    rewrite (bind_Ret _ _ _ _ _ (store_ok l1 len c _ ltac:(lia))). unfold ret.
    split; [done|]. rewrite size_t_small by (unfold PTRDIFF_MAX in *; lia).
    split. { split; [unfold strlen in *; rewrite length_insert; lia|]. lia. }
    split; [done|]. split; [done|]. split; [apply Hpre, take_insert_at|].
    exists c. split; [|done]. apply list_lookup_insert_eq. unfold strlen in *. lia.
Qed.

Lemma read_line_loop_inv E fuel line cap len tr :
  buf_inv line cap len ->
  match read_line_loop E fuel line cap len tr with
  | Ret (rr, lb) tr' =>
      exists evs line' cap' k,
        tr' = tr ++ evs /\ forallb quiet evs = true /\
        lb = LineBuf (Some line') cap' /\ strlen line' = cap' /\
        0 < cap' <= PTRDIFF_MAX /\ 0 <= k /\ cap' = cap * 2 ^ k /\
        take (Z.to_nat len) line' = take (Z.to_nat len) line /\
        (rr = -1 \/ rr = 0 \/
         (rr = 1 /\ exists n, len <= n < cap' /\ line' !! Z.to_nat n = Some NUL))
  | OutOfFuel => True
  | _ => False
  end.
Proof.
  revert line cap len tr. induction fuel as [|fuel IH]; intros line cap len tr Hinv; [done|].
  cbn [read_line_loop]. unfold bind at 1.
  destruct (read_line_iter_inv E line cap len tr Hinv) as (e1 & Hq1 & Hit).
  destruct (read_line_iter E line cap len tr) as [[l1 c1 n1|rr lb] t1| | | |]; try done.
  - destruct Hit as (-> & Hinv1 & Hc1 & -> & Htk & _).
    specialize (IH l1 c1 (len + 1) (tr ++ e1) Hinv1).
    destruct (read_line_loop E fuel l1 c1 (len + 1) (tr ++ e1)) as [[rr lb] t2| | | |]; try done.
    destruct IH as (e2 & l2 & c2 & k & -> & Hq2 & -> & Hl2 & Hc2 & Hk & Hck & Htk2 & Hrr).
    destruct Hinv as (_ & Hlen & _).
    exists (e1 ++ e2), l2, c2, (if decide (c1 = cap) then k else k + 1).
    split; [by rewrite app_assoc|]. split; [by rewrite forallb_app, Hq1, Hq2|].
    split; [done|]. split; [done|]. split; [done|].
    split; [case_decide; lia|].
    split. { case_decide; [by subst|]. destruct Hc1; [done|]. subst c1.
             rewrite Z.pow_add_r by lia. lia. }
    split. { rewrite <- Htk.
             replace (Z.to_nat len) with (Z.to_nat len `min` Z.to_nat (len + 1))%nat by lia.
             rewrite <- !take_take. by rewrite Htk2. }
    destruct Hrr as [?|[?|(-> & n & Hn & Hnul)]]; [by left|right; by left|].
    right; right. split; [done|]. exists n. split; [lia|done].
  - destruct Hit as (-> & l1 & c1 & -> & Hl1 & Hc1 & Hcc & Htk & Hrr). unfold ret.
    destruct Hinv as (_ & Hlen & _).
    exists e1, l1, c1, (if decide (c1 = cap) then 0 else 1).
    split; [done|]. split; [done|]. split; [done|]. split; [done|]. split; [done|].
    split; [case_decide; lia|].
    split. { case_decide; [lia|]. destruct Hcc; [done|]. lia. }
    split; [done|].
    destruct Hrr as [?|[?|(-> & Hnul)]]; [by left|right; by left|].
    right; right. split; [done|]. exists len. split; [lia|done].
Qed.

Lemma read_line_inv E fuel lb tr :
  lb_good lb ->
  match read_line E fuel lb tr with
  | Ret (rr, lb') tr' =>
      exists evs k,
        tr' = tr ++ evs /\ forallb quiet evs = true /\ lb_good lb' /\
        0 <= k /\ lb_cap lb' = start_cap lb * 2 ^ k /\
        (rr = -1 \/ rr = 0 \/
         (rr = 1 /\ exists l n, lb_line lb' = Some l /\ 0 <= n < lb_cap lb' /\
            l !! Z.to_nat n = Some NUL))
  | OutOfFuel => True
  | _ => False
  end.
Proof.
  intros Hgood.
  assert (Hloop : forall line cap evs0 t, buf_inv line cap 0 -> forallb quiet evs0 = true ->
    t = tr ++ evs0 -> cap = start_cap lb ->
    match read_line_loop E fuel line cap 0 t with
    | Ret (rr, lb') tr' =>
        exists evs k,
          tr' = tr ++ evs /\ forallb quiet evs = true /\ lb_good lb' /\
          0 <= k /\ lb_cap lb' = start_cap lb * 2 ^ k /\
          (rr = -1 \/ rr = 0 \/
           (rr = 1 /\ exists l n, lb_line lb' = Some l /\ 0 <= n < lb_cap lb' /\
              l !! Z.to_nat n = Some NUL))
    | OutOfFuel => True
    | _ => False
    end).
  { intros line cap evs0 t Hinv Hq0 -> Hcap.
    pose proof (read_line_loop_inv E fuel line cap 0 (tr ++ evs0) Hinv) as H.
    destruct (read_line_loop E fuel line cap 0 (tr ++ evs0)) as [[rr lb'] t2| | | |]; try done.
    destruct H as (e2 & l2 & c2 & k & -> & Hq2 & -> & Hl2 & Hc2 & Hk & Hck & _ & Hrr).
    exists (evs0 ++ e2), k. split; [by rewrite app_assoc|].
    split; [by rewrite forallb_app, Hq0, Hq2|]. split; [split; simpl; [done|lia]|].
    split; [done|]. split; [simpl; by subst|].
    destruct Hrr as [?|[?|(-> & n & Hn & Hnul)]]; [by left|right; by left|].
    right; right. split; [done|]. exists l2, n. simpl. split; [done|]. split; [lia|done]. }
  assert (Hfresh :
    start_cap lb = INITIAL_BUFSZ ->
    match (let* lb0 :=
             (let* ok := malloc E INITIAL_BUFSZ in
              ret (LineBuf (if ok then Some (replicate (Z.to_nat INITIAL_BUFSZ) (env_junk E)) else None)
                           INITIAL_BUFSZ)) in
           match lb_line lb0 with
           | None => ret (-1, lb0)
           | Some line => read_line_loop E fuel line (lb_cap lb0) 0
           end) tr with
    | Ret (rr, lb') tr' =>
        exists evs k,
          tr' = tr ++ evs /\ forallb quiet evs = true /\ lb_good lb' /\
          0 <= k /\ lb_cap lb' = start_cap lb * 2 ^ k /\
          (rr = -1 \/ rr = 0 \/
           (rr = 1 /\ exists l n, lb_line lb' = Some l /\ 0 <= n < lb_cap lb' /\
              l !! Z.to_nat n = Some NUL))
    | OutOfFuel => True
    | _ => False
    end).
  { intros Hstart. unfold bind, malloc, ret.
    destruct ((INITIAL_BUFSZ <=? PTRDIFF_MAX) && env_alloc E tr INITIAL_BUFSZ) eqn:Hok; cbn [lb_line lb_cap].
    - apply (Hloop _ _ [EvMalloc INITIAL_BUFSZ true]); [|done|done|done].
      split; [|done]. unfold strlen. by rewrite length_replicate.
    - exists [EvMalloc INITIAL_BUFSZ false], 0. rewrite Hstart. repeat split; try done. by left. }
  unfold read_line. destruct lb as [[line|] cap].
  - destruct (Z.eqb_spec cap 0) as [->|Hne].
    + by apply Hfresh.
    + rewrite (bind_Ret _ _ _ _ _ (eq_refl : ret _ tr = Ret _ tr)). cbn [lb_line lb_cap].
      destruct Hgood as [Hl Hc]. simpl in Hl, Hc.
      apply (Hloop line cap []); [|done|by rewrite app_nil_r|].
      * split; [done|]. unfold strlen in *. lia.
      * simpl. by destruct (Z.eqb_spec cap 0).
  - by apply Hfresh.
Qed.

(** ** How the shell can end *)

Lemma shell_step_bind {A B} (Q1 : A -> Prop) (Q2 : B -> Prop) (m : M A) (k : A -> M B) tr :
  shell_step Q1 tr (m tr) ->
  (forall a tr', Q1 a -> shell_step Q2 tr' (k a tr')) ->
  shell_step Q2 tr (bind m k tr).
Proof.
  intros Hm Hk. unfold bind. destruct (m tr) as [a t1|c t1|t1|t1|]; try done.
  destruct Hm as (Ha & e1 & -> & Hc1 & Hf1). specialize (Hk a (tr ++ e1) Ha).
  destruct (k a (tr ++ e1)) as [b t2|c t2|t2|t2|]; try done; simpl in *.
  - destruct Hk as (Hb & e2 & -> & Hc2 & Hf2). split; [done|]. exists (e1 ++ e2).
    rewrite app_assoc, in_child_app, write_failed_app, Hc1, Hc2, Hf1, Hf2. done.
  - destruct Hk as (e2 & -> & H). exists (e1 ++ e2). split; [by rewrite app_assoc|].
    destruct H as [(-> & Hc2 & e0 & fd & d & -> & Hf0 & Hfd)|(-> & Hc2 & Hf2)].
    + left. split; [done|]. rewrite in_child_app, Hc1, Hc2. split; [done|].
      exists (e1 ++ e0), fd, d. rewrite app_assoc, write_failed_app, Hf1, Hf0. done.
    + right. rewrite in_child_app, write_failed_app, Hc1, Hc2, Hf1, Hf2. done.
  - destruct Hk as (e2 & -> & Hc2). exists (e1 ++ e2). rewrite app_assoc, in_child_app, Hc2.
    split; [done|]. by rewrite orb_true_r.
Qed.

Lemma shell_step_ret {A} (Q : A -> Prop) a tr : Q a -> shell_step Q tr (ret a tr).
Proof. intros H. simpl. split; [done|]. exists []. by rewrite app_nil_r. Qed.

Lemma shell_step_event {A} (Q : A -> Prop) (a : A) e tr :
  Q a -> in_child [e] = false -> write_failed [e] = false ->
  shell_step Q tr (Ret a (tr ++ [e])).
Proof. intros H1 H2 H3. simpl. split; [done|]. by exists [e]. Qed.

Lemma shell_step_print_str E fuel fd s tr :
  fd = STDOUT_FILENO \/ fd = STDERR_FILENO ->
  shell_step (fun _ => True) tr (print_str E fuel fd s tr).
Proof.
  intros Hfd. unfold print_str. pose proof (write_all_cases E fuel fd s tr) as H.
  destruct (write_all E fuel fd s tr) as [[] t1|c t1|t1|t1|]; try done; simpl.
  - destruct H as (evs & -> & Hw & _ & Hf). split; [done|]. exists evs.
    by rewrite (writes_in_child _ _ Hw).
  - destruct H as (-> & evs & d & -> & Hw & Hf). eexists. split; [done|]. left.
    split; [done|]. rewrite in_child_app, (writes_in_child _ _ Hw). split; [done|].
    by exists evs, fd, d.
Qed.

(** A print, then the rest. *)
Ltac print_then fd_side :=
  eapply shell_step_bind; [apply shell_step_print_str; fd_side|]; intros _ ? _.

Lemma shell_step_perror E label tr : shell_step (fun _ => True) tr (perror E label tr).
Proof. unfold perror. by apply shell_step_event. Qed.

Lemma shell_step_quiet {A} (Q : A -> Prop) (a : A) tr evs :
  Q a -> forallb quiet evs = true -> shell_step Q tr (Ret a (tr ++ evs)).
Proof.
  intros H Hq. simpl. split; [done|]. exists evs.
  by rewrite (quiet_in_child _ Hq), (quiet_write_failed _ Hq).
Qed.

Lemma shell_step_read_line E fuel lb tr :
  lb_good lb ->
  shell_step (fun r => lb_good (snd r) /\
                (fst r = -1 \/ fst r = 0 \/ (fst r = 1 /\ exists l, lb_line (snd r) = Some l)))
    tr (read_line E fuel lb tr).
Proof.
  intros Hgood. pose proof (read_line_inv E fuel lb tr Hgood) as H.
  destruct (read_line E fuel lb tr) as [[rr lb'] t1|c t1|t1|t1|]; try done.
  destruct H as (evs & k & -> & Hq & Hg & _ & _ & Hrr).
  apply shell_step_quiet; [|done]. split; [done|]. simpl.
  destruct Hrr as [?|[?|(-> & l & n & Hl & _)]]; [by left|right; by left|].
  right; right. split; [done|]. by exists l.
Qed.

Lemma shell_step_handle_cd E fuel argc argv tr :
  shell_step (fun _ => True) tr (handle_cd E fuel argc argv tr).
Proof.
  assert (Hcd : forall target t, shell_step (fun _ => True) t (cd_to E target t)).
  { intros target t. unfold cd_to. eapply shell_step_bind.
    - unfold chdir. by apply (shell_step_event (fun _ => True)).
    - intros [] t' _; [by apply shell_step_ret|apply shell_step_perror]. }
  unfold handle_cd. destruct (argc <? 2); [|apply Hcd].
  destruct (env_home E) as [[|c h]|]; [|apply Hcd|]; apply shell_step_print_str; by right.
Qed.

Lemma shell_step_report_status E fuel status tr :
  shell_step (fun _ => True) tr (report_status E fuel status tr).
Proof.
  unfold report_status. print_then ltac:(by left).
  destruct (WIFEXITED E status); [|destruct (WIFSIGNALED E status)].
  - do 2 print_then ltac:(by left). apply shell_step_print_str; by left.
  - do 2 print_then ltac:(by left). apply shell_step_print_str; by left.
  - apply shell_step_print_str; by left.
Qed.

Lemma shell_step_after {A} (Q : A -> Prop) tr es (o : outcome A) :
  in_child es = false -> write_failed es = false ->
  shell_step Q (tr ++ es) o -> shell_step Q tr o.
Proof.
  intros Hc1 Hf1 H. destruct o as [b t2|c t2|t2|t2|]; try done; simpl in *.
  - destruct H as (Hb & e2 & -> & Hc2 & Hf2). split; [done|]. exists (es ++ e2).
    rewrite app_assoc, in_child_app, write_failed_app, Hc1, Hc2, Hf1, Hf2. done.
  - destruct H as (e2 & -> & H). exists (es ++ e2). split; [by rewrite app_assoc|].
    destruct H as [(-> & Hc2 & e0 & fd & d & -> & Hf0 & Hfd)|(-> & Hc2 & Hf2)].
    + left. split; [done|]. rewrite in_child_app, Hc1, Hc2. split; [done|].
      exists (es ++ e0), fd, d. rewrite app_assoc, write_failed_app, Hf1, Hf0. done.
    + right. rewrite in_child_app, write_failed_app, Hc1, Hc2, Hf1, Hf2. done.
  - destruct H as (e2 & -> & Hc2). exists (es ++ e2). rewrite app_assoc, in_child_app, Hc2.
    split; [done|]. by rewrite orb_true_r.
Qed.

Lemma shell_step_execute_external E fuel argv tr :
  shell_step (fun _ => True) tr (execute_external E fuel argv tr).
Proof.
  unfold execute_external.
  eapply (shell_step_bind (fun _ => True)).
  { destruct (find_command_path_total E (nth 0 argv []) (path_buf0 E) PATH_BUF_SZ tr
                (path_buf0_length E)) as (f & o & e0 & -> & _ & Hacc & _).
    apply shell_step_quiet; [done|by apply access_quiet]. }
  intros [found pb] t1 _. destruct (found =? 0).
  { unfold print_unknown_command. do 2 print_then ltac:(by right).
    apply shell_step_print_str; by right. }
  unfold bind at 1. unfold fork.
  destruct (Z.ltb_spec (env_fork E t1) 0) as [Hneg|Hnn].
  { apply (shell_step_after _ _ [EvFork (env_fork E t1)]); [|done|apply shell_step_perror].
    simpl. by destruct (Z.eqb_spec (env_fork E t1) 0); [lia|]. }
  destruct (Z.eqb_spec (env_fork E t1) 0) as [Hz|Hpos].
  - rewrite Hz. unfold bind, execv, perror, _exit.
    destruct (env_execv E _ _ _); simpl.
    + by eexists [_; _]; rewrite <- app_assoc.
    + eexists [_; _; _]. rewrite <- !app_assoc. split; [done|]. by right.
  - apply (shell_step_after _ _ [EvFork (env_fork E t1)]); [|done|].
    { simpl. by destruct (Z.eqb_spec (env_fork E t1) 0). }
    eapply (shell_step_bind (fun _ => True)).
    { unfold waitpid. by apply (shell_step_event (fun _ => True)). }
    intros [status|] t2 _; [apply shell_step_report_status|apply shell_step_perror].
Qed.

(** The turn of the main loop keeps the buffer well formed. *)
Lemma shell_step_main_iter E fuel lb tr :
  lb_good lb ->
  shell_step (fun n => match n with Continue lb' => lb_good lb' | Break _ => True end)
    tr (main_iter E fuel lb tr).
Proof.
  intros Hgood. unfold main_iter.
  eapply shell_step_bind; [apply shell_step_print_str; by left|]. intros _ t1 _.
  eapply shell_step_bind; [by apply shell_step_read_line|].
  intros [rr lb1] t2 (Hg1 & Hrr). simpl in Hg1, Hrr.
  destruct (Z.ltb_spec rr 0) as [Hneg|Hnn].
  { eapply shell_step_bind; [apply shell_step_perror|]. intros _ t3 _. by apply shell_step_ret. }
  destruct (Z.eqb_spec rr 0) as [Hz|Hnz].
  { eapply shell_step_bind; [apply shell_step_print_str; by left|]. intros _ t3 _.
    by apply shell_step_ret. }
  destruct Hrr as [?|[?|(-> & l & Hl)]]; [lia|lia|]. rewrite Hl.
  destruct (is_nul (peek l 0)); [by apply shell_step_ret|].
  destruct (parse_tokens_spec l MAX_ARGS) as (r & -> & Hlen & _).
  assert (Hg2 : lb_good (LineBuf (Some (Tokenizer.p_line r)) (lb_cap lb1))).
  { unfold lb_good in *. rewrite Hl in Hg1. simpl. unfold strlen in *. lia. }
  destruct (_ =? 0); [by apply shell_step_ret|].
  destruct (strcmp_eq _ (str "exit")); [by apply shell_step_ret|].
  destruct (strcmp_eq _ (str "cd")).
  - eapply shell_step_bind; [apply shell_step_handle_cd|]. intros _ t3 _. by apply shell_step_ret.
  - eapply shell_step_bind; [apply shell_step_execute_external|]. intros _ t3 _.
    by apply shell_step_ret.
Qed.

Lemma shell_step_main_loop E fuel lb tr :
  lb_good lb -> shell_step (fun c => c = 0) tr (main_loop E fuel lb tr).
Proof.
  revert lb tr. induction fuel as [|fuel IH]; intros lb tr Hgood; [done|].
  cbn [main_loop]. eapply shell_step_bind; [by apply shell_step_main_iter|].
  intros [lb'|lb'] t1 Hg; [by apply IH|by apply shell_step_ret].
Qed.

Lemma shell_step_main E fuel : shell_step (fun c => c = 0) [] (main E fuel []).
Proof. by apply shell_step_main_loop. Qed.

(** ** The token cap *)

(** C1, as amended.  For every input line [parse_tokens] returns, and the
    strings its [argv] points at are the first 127 (that is [MAX_ARGS - 1])
    whitespace-separated tokens of the line: later text is dropped and no
    error is raised.  [argc] is their number, at most 127, and the [NULL]
    sentinel still fits in the 128 slots of [argv]. *)
Theorem token_cap line :
  truncates_at 127 line /\
  exists r, parse_tokens line MAX_ARGS = Some r /\
    p_argc r = Z.of_nat (length (tokens_of r)) /\
    0 <= p_argc r <= MAX_ARGS - 1 /\
    Z.of_nat (length (p_argv r)) <= MAX_ARGS.
Proof.
  destruct (parse_tokens_spec line MAX_ARGS) as (r & Hr & _ & Htok & Hargc & Hargv).
  split. { unfold truncates_at. rewrite Hr. simpl. by rewrite Htok. }
  exists r. split; [done|]. split; [done|].
  assert (length (tokens_of r) <= 127)%nat.
  { rewrite Htok, length_take. change (Z.to_nat (MAX_ARGS - 1)) with 127%nat. lia. }
  unfold MAX_ARGS in *. lia.
Qed.

(** C1 as stated fails: a line of 128 tokens followed by one more is not
    cut at 128 tokens (it is cut at 127). *)
Lemma token_cap_not_128 : ~ truncates_at 128 (many_tokens 129).
Proof.
  unfold truncates_at. intros H.
  apply (f_equal (option_map (@length _))) in H. vm_compute in H. discriminate.
Qed.

(** ** A child that cannot start the command *)

(** C4, as amended.  When [execv] fails in the child, the child prints the
    error with [perror("exec")] on standard error, prints nothing else and
    calls [_exit(127)] at once.  No process that runs [main] without being
    a forked child ends with 127: the shell's own status is another one. *)
Theorem exec_failure E fuel argv tr pb tr1 :
  find_command_path E (nth 0 argv []) (path_buf0 E) PATH_BUF_SZ tr = Ret (1, pb) tr1 ->
  env_fork E tr1 = 0 ->
  env_execv E (tr1 ++ [EvFork 0]) (cstr_at pb 0) argv = false ->
  let tr2 := tr1 ++ [EvFork 0; EvExecv (cstr_at pb 0) argv false] in
  let tr3 := tr2 ++ [EvPerror (str "exec") (env_strerror E tr2)] in
  execute_external E fuel argv tr = Exited 127 tr3 /\
  output STDERR_FILENO tr3
    = output STDERR_FILENO tr ++ str "exec: " ++ env_strerror E tr2 ++ [LF] /\
  output STDOUT_FILENO tr3 = output STDOUT_FILENO tr /\
  in_child tr3 = true /\
  forall fuel' c tr',
    main E fuel' [] = Ret c tr' \/ (main E fuel' [] = Exited c tr' /\ in_child tr' = false) ->
    c <> 127.
Proof.
  intros Hres Hfork Hexec tr2 tr3.
  destruct (find_command_path_total E (nth 0 argv []) (path_buf0 E) PATH_BUF_SZ tr
              (path_buf0_length E)) as (f & o & e0 & Heq & _ & Hacc & _).
  rewrite Hres in Heq. injection Heq as _ _ ->.
  split.
  { unfold execute_external, bind. rewrite Hres. cbv beta iota. change (1 =? 0) with false.
    cbv iota. unfold fork. rewrite Hfork. cbv beta iota. change (0 <? 0) with false.
    change (0 =? 0) with true. cbv iota. unfold execv. rewrite Hexec.
    unfold perror, _exit. subst tr3 tr2. by rewrite <- !app_assoc. }
  subst tr3 tr2.
  split.
  { rewrite !output_app, (access_output _ e0 Hacc), !app_nil_r. f_equal.
    unfold output. simpl. by rewrite app_nil_r. }
  split. { by rewrite !output_app, (access_output _ e0 Hacc), !app_nil_r. }
  split. { rewrite !in_child_app. simpl. by rewrite !orb_true_r. }
  intros fuel' c tr' Hmain. pose proof (shell_step_main E fuel') as H.
  destruct Hmain as [Hm|[Hm Hc]]; rewrite Hm in H; simpl in H.
  - destruct H as [-> _]. done.
  - destruct H as (evs & -> & [(-> & _)|(-> & Hc' & _)]); [done|]. simpl in Hc. congruence.
Qed.

(** C4 as stated fails: 127 is not distinct from every code of a target
    program.  The status word 32512 is that of a target that exited
    normally, and its exit code is the one of the child that failed to
    start. *)
Lemma exec_failure_code_not_reserved :
  ~ (forall s c tr',
       Sample.wifexited s = true ->
       execute_external (Sample.env None [] [str "/bin/ls"] 0 false None) 0 [str "ls"] []
         = Exited c tr' ->
       c <> Sample.wexitstatus s).
Proof.
  intros H. eapply (H 32512); [reflexivity| |].
  - vm_compute. reflexivity.
  - reflexivity.
Qed.

(** ** Candidates that do not fit the path buffer *)

(** C7.  With a buffer of [out_sz] bytes, [find_command_path] never stores
    outside of it; a HOME candidate that needs more than [out_sz] bytes is
    skipped and the outcome is that of the [/bin] block alone; when no
    candidate fits the function returns 0 and leaves the buffer as it was.
    [execute_external], with its 4096 bytes, never faults.  Said on the
    trace: when the HOME candidate is too long and the [/bin] one fits, the
    one and only permission test made is that of the [/bin] candidate, and
    it decides the result; when the [/bin] candidate is too long and the
    HOME one fits, the one and only test is that of the HOME candidate. *)
Theorem path_overflow_skipped E cmd out_path out_sz tr :
  strlen out_path = out_sz ->
  (exists found out_path' evs,
     find_command_path E cmd out_path out_sz tr = Ret (found, out_path') (tr ++ evs) /\
     length out_path' = length out_path /\ Forall is_access evs) /\
  (forall home, env_home E = Some home ->
     out_sz < strlen (candidate home cmd) + 1 ->
     find_command_path E cmd out_path out_sz tr
       = (let* (found, o) := try_dir E (str "/bin") cmd out_path out_sz in
          if found then ret (1, o) else ret (0, o)) tr) /\
  ((forall home, env_home E = Some home ->
      home = [] \/ out_sz < strlen (candidate home cmd) + 1) ->
   out_sz < strlen (candidate (str "/bin") cmd) + 1 ->
   find_command_path E cmd out_path out_sz tr = Ret (0, out_path) tr) /\
  (forall fuel argv tr' t, execute_external E fuel argv tr' <> Fault t) /\
  (forall home, env_home E = Some home ->
     out_sz < strlen (candidate home cmd) + 1 ->
     strlen (candidate (str "/bin") cmd) + 1 <= out_sz ->
     let p := c_str (candidate (str "/bin") cmd) in
     let ok := env_access E tr p in
     exists out_path',
       find_command_path E cmd out_path out_sz tr
         = Ret (if ok then 1 else 0, out_path') (tr ++ [EvAccess p ok]) /\
       cstr_at out_path' 0 = p /\ length out_path' = length out_path /\
       (is_c_string cmd -> p = candidate (str "/bin") cmd)) /\
  (forall c h, env_home E = Some (c :: h) ->
     strlen (candidate (c :: h) cmd) + 1 <= out_sz ->
     out_sz < strlen (candidate (str "/bin") cmd) + 1 ->
     let p := c_str (candidate (c :: h) cmd) in
     let ok := env_access E tr p in
     exists out_path',
       find_command_path E cmd out_path out_sz tr
         = Ret (if ok then 1 else 0, out_path') (tr ++ [EvAccess p ok]) /\
       cstr_at out_path' 0 = p /\ length out_path' = length out_path /\
       (is_c_string (c :: h) -> is_c_string cmd -> p = candidate (c :: h) cmd)).
Proof.
  intros Hsz. split; [|split; [|split; [|split; [|split]]]].
  - destruct (find_command_path_total E cmd out_path out_sz tr Hsz)
      as (f & o & evs & Heq & Hlen & Hacc & _).
    by exists f, o, evs.
  - intros home Hhome Hlong. unfold find_command_path. rewrite Hhome.
    destruct home as [|c h]; [done|].
    rewrite strlen_candidate in Hlong.
    unfold bind at 1. by rewrite try_dir_long.
  - intros Hhome Hlong. rewrite strlen_candidate in Hlong.
    unfold find_command_path.
    destruct (env_home E) as [[|c h]|] eqn:Hh.
    + unfold bind, ret. by rewrite try_dir_long.
    + destruct (Hhome (c :: h) eq_refl) as [|Hl]; [done|].
      rewrite strlen_candidate in Hl. unfold bind at 1. rewrite try_dir_long by done.
      unfold bind. by rewrite try_dir_long.
    + unfold bind, ret. by rewrite try_dir_long.
  - intros fuel argv tr' t Heq. pose proof (shell_step_execute_external E fuel argv tr') as H.
    by rewrite Heq in H.
  - intros home Hhome Hlong Hfit p ok.
    destruct (try_dir_spec E (str "/bin") cmd out_path out_sz tr Hsz) as (o & Hlen & H).
    destruct (Z.leb_spec (strlen (candidate (str "/bin") cmd) + 1) out_sz); [|lia].
    destruct H as [Heq Hp]. cbv zeta in Heq, Hp. fold p in Heq, Hp. fold ok in Heq.
    exists o. split; [|split; [done|split; [done|]]].
    + unfold find_command_path. rewrite Hhome. rewrite strlen_candidate in Hlong.
      assert (Hfirst : match home with
                       | c :: home' => try_dir E (c :: home') cmd out_path out_sz
                       | [] => ret (false, out_path)
                       end tr = Ret (false, out_path) tr).
      { destruct home as [|c h]; [done|]. by apply try_dir_long. }
      rewrite (bind_Ret _ _ _ _ _ Hfirst). cbv beta iota.
      rewrite (bind_Ret _ _ _ _ _ Heq). by destruct ok.
    + intros Hcmd. by apply candidate_c_string.
  - intros c h Hhome Hfit Hlong p ok.
    destruct (try_dir_spec E (c :: h) cmd out_path out_sz tr Hsz) as (o & Hlen & H).
    destruct (Z.leb_spec (strlen (candidate (c :: h) cmd) + 1) out_sz); [|lia].
    destruct H as [Heq Hp]. cbv zeta in Heq, Hp. fold p in Heq, Hp. fold ok in Heq.
    exists o. split; [|split; [done|split; [done|]]].
    + unfold find_command_path. rewrite Hhome.
      rewrite (bind_Ret _ _ _ _ _ Heq). cbv beta iota.
      destruct ok; [done|]. rewrite strlen_candidate in Hlong.
      unfold bind. by rewrite try_dir_long.
    + intros Hh Hcmd. by apply candidate_c_string.
Qed.

(** ** The built-in cd *)

Lemma cd_to_run E target tr :
  cd_to E target tr
  = Ret tt (tr ++ EvChdir target (env_chdir E tr target)
               :: (if env_chdir E tr target then []
                   else [EvPerror (str "cd") (env_strerror E (tr ++ [EvChdir target false]))])).
Proof.
  unfold cd_to, bind, chdir, perror, ret.
  destruct (env_chdir E tr target); [done|]. by rewrite <- app_assoc.
Qed.

(** C9.  Without argument and with HOME set and not empty, [handle_cd]
    changes to HOME; with an argument it changes to [argv[1]]; a change
    that fails is reported with [perror("cd")] and the function returns.
    With HOME unset or empty it prints [cd: HOME not set] on standard error
    and changes nothing.  It never ends the shell, a failed write of that
    message apart.  After [cd /tmp] and then [cd] with HOME=/home/u the
    working directory is /home/u. *)
Theorem cd_builtin E fuel argc argv tr :
  (argc < 2 -> forall c h, env_home E = Some (c :: h) ->
     handle_cd E fuel argc argv tr = cd_to E (c :: h) tr) /\
  (2 <= argc -> handle_cd E fuel argc argv tr = cd_to E (nth 1 argv []) tr) /\
  (forall target,
     cd_to E target tr
     = Ret tt (tr ++ EvChdir target (env_chdir E tr target)
                  :: (if env_chdir E tr target then []
                      else [EvPerror (str "cd") (env_strerror E (tr ++ [EvChdir target false]))]))) /\
  (argc < 2 -> env_home E = None \/ env_home E = Some [] ->
     writes_progress E -> (17 <= fuel)%nat ->
     exists evs, handle_cd E fuel argc argv tr = Ret tt (tr ++ evs) /\
       output STDERR_FILENO evs = str "cd: HOME not set" ++ [LF] /\
       forall start, cwd_after start (tr ++ evs) = cwd_after start tr) /\
  match handle_cd E fuel argc argv tr with
  | Ret _ _ | OutOfFuel => True
  | Exited c tr' => c = 1 /\ exists tr0 fd data, tr' = tr0 ++ [EvWrite fd data None]
  | _ => False
  end /\
  (forall start, env_home E = Some (str "/home/u") ->
     env_chdir E tr (str "/tmp") = true ->
     env_chdir E (tr ++ [EvChdir (str "/tmp") true]) (str "/home/u") = true ->
     exists tr1 tr2,
       handle_cd E fuel 2 [str "cd"; str "/tmp"] tr = Ret tt tr1 /\
       cwd_after start tr1 = str "/tmp" /\
       handle_cd E fuel 1 [str "cd"] tr1 = Ret tt tr2 /\
       cwd_after start tr2 = str "/home/u").
Proof.
  split; [|split; [|split; [|split; [|split]]]].
  - intros Hargc c h Hhome. unfold handle_cd. rewrite Hhome.
    by destruct (Z.ltb_spec argc 2); [|lia].
  - intros Hargc. unfold handle_cd. by destruct (Z.ltb_spec argc 2); [lia|].
  - intros target. apply cd_to_run.
  - intros Hargc Hhome Hp Hfuel. unfold handle_cd.
    destruct (Z.ltb_spec argc 2); [|lia].
    destruct (prints_print_str E fuel STDERR_FILENO (str "cd: HOME not set" ++ [LF]) Hp
                ltac:(simpl; lia) tr) as (evs & Heq & Hw & Ho & _).
    exists evs.
    assert (Hcwd : forall start, cwd_after start (tr ++ evs) = cwd_after start tr).
    { intros start. by rewrite cwd_after_app, (writes_cwd _ _ _ Hw). }
    by destruct Hhome as [-> | ->].
  - assert (Hpr : match print_str E fuel STDERR_FILENO (str "cd: HOME not set" ++ [LF]) tr with
                  | Ret _ _ | OutOfFuel => True
                  | Exited c tr' => c = 1 /\ exists tr0 fd data, tr' = tr0 ++ [EvWrite fd data None]
                  | _ => False
                  end).
    { unfold print_str.
      pose proof (write_all_cases E fuel STDERR_FILENO (str "cd: HOME not set" ++ [LF]) tr) as H.
      destruct (write_all E fuel STDERR_FILENO _ tr) as [[] t|c t|t|t|]; try done.
      destruct H as (-> & evs & d & -> & _). split; [done|].
      exists (tr ++ evs), STDERR_FILENO, d. by rewrite app_assoc. }
    unfold handle_cd. destruct (argc <? 2); [|by rewrite cd_to_run].
    destruct (env_home E) as [[|c h]|]; [done|by rewrite cd_to_run|done].
  - intros start Hhome Htmp Hu. unfold handle_cd. rewrite Hhome.
    change (2 <? 2) with false. change (1 <? 2) with true. cbv iota.
    change (nth 1 [str "cd"; str "/tmp"] []) with (str "/tmp").
    change (str "/home/u") with ("/"%char :: str "home/u") at 1 2.
    cbv iota. change ("/"%char :: str "home/u") with (str "/home/u").
    rewrite !cd_to_run, Htmp. eexists _, _. split; [done|].
    rewrite cd_to_run, Hu. split; [by rewrite cwd_after_app|]. split; [done|].
    by rewrite !cwd_after_app.
Qed.

(** ** The invariant of the line buffer *)

(** C8.  Every turn of the loop of [read_line] keeps [len < cap] with a
    block of exactly [cap] bytes; the capacity stays or doubles; the bytes
    accumulated so far are unchanged.  A whole call returns a capacity that
    is the starting one times a power of two, and the starting capacity of
    a buffer never allocated is [INITIAL_BUFSZ].  No store leaves the
    block. *)
Theorem line_buffer_invariant E :
  (forall line cap len tr,
     buf_inv line cap len ->
     exists evs, forallb quiet evs = true /\
       match read_line_iter E line cap len tr with
       | Ret (RlAgain line' cap' len') tr' =>
           tr' = tr ++ evs /\ buf_inv line' cap' len' /\
           (cap' = cap \/ cap' = 2 * cap) /\ len' = len + 1 /\
           take (Z.to_nat len) line' = take (Z.to_nat len) line /\
           exists c, line' !! Z.to_nat len = Some c /\ c <> LF
       | Ret (RlReturn rr lb) tr' =>
           tr' = tr ++ evs /\
           exists line' cap', lb = LineBuf (Some line') cap' /\
             strlen line' = cap' /\ 0 < cap' <= PTRDIFF_MAX /\
             (cap' = cap \/ cap' = 2 * cap) /\
             take (Z.to_nat len) line' = take (Z.to_nat len) line /\
             (rr = -1 \/ rr = 0 \/ (rr = 1 /\ line' !! Z.to_nat len = Some NUL))
       | _ => False
       end) /\
  (forall fuel lb tr,
     lb_good lb ->
     match read_line E fuel lb tr with
     | Ret (rr, lb') tr' =>
         exists evs k,
           tr' = tr ++ evs /\ forallb quiet evs = true /\ lb_good lb' /\
           0 <= k /\ lb_cap lb' = start_cap lb * 2 ^ k /\
           (rr = -1 \/ rr = 0 \/
            (rr = 1 /\ exists l n, lb_line lb' = Some l /\ 0 <= n < lb_cap lb' /\
               l !! Z.to_nat n = Some NUL))
     | OutOfFuel => True
     | _ => False
     end) /\
  lb_good (LineBuf None 0) /\ start_cap (LineBuf None 0) = INITIAL_BUFSZ /\
  buf_inv (replicate (Z.to_nat INITIAL_BUFSZ) (env_junk E)) INITIAL_BUFSZ 0.
Proof.
  split; [|split; [|split; [|split]]].
  - apply read_line_iter_inv.
  - apply read_line_inv.
  - done.
  - done.
  - split; [|done]. unfold strlen. by rewrite length_replicate.
Qed.

(** ** The exit status of the shell *)

Lemma main_read_error E fuel :
  writes_progress E -> (forall t, env_read E t = ReadErr) -> (12 <= fuel)%nat ->
  exists tr0,
    main E fuel [] = Ret 0 (tr0 ++ [EvPerror (str "read") (env_strerror E tr0)]) /\
    output STDOUT_FILENO tr0 = PROMPT /\ output STDERR_FILENO tr0 = [].
Proof.
  intros Hp Hread Hfuel. destruct fuel as [|fuel]; [lia|].
  destruct fuel as [|fuel]; [lia|].
  unfold main. cbn [main_loop]. unfold main_iter.
  destruct (prints_print_str E (S fuel) STDOUT_FILENO PROMPT Hp ltac:(simpl; lia) [])
    as (e1 & Heq1 & Hw1 & Ho1 & _).
  unfold bind at 1. unfold bind at 1. rewrite Heq1. cbv beta iota.
  unfold bind at 1. unfold read_line. unfold bind at 1. unfold bind at 1. unfold malloc.
  cbv beta iota.
  destruct ((INITIAL_BUFSZ <=? PTRDIFF_MAX) && env_alloc E ([] ++ e1) INITIAL_BUFSZ).
  - unfold ret at 1. cbn [lb_line lb_cap read_line_loop]. unfold bind at 1.
    unfold read_line_iter. change (size_t (0 + 2) >? INITIAL_BUFSZ) with false. cbv iota.
    unfold bind at 1. unfold ret at 1. cbv beta iota. unfold bind at 1. unfold sys_read.
    rewrite Hread. unfold ret. cbv beta iota. change (-1 <? 0) with true. cbv iota.
    unfold bind, perror. cbv beta iota.
    eexists. split; [done|]. rewrite !output_app, Ho1.
    rewrite (writes_other_output STDOUT_FILENO STDERR_FILENO e1 Hw1) by done. done.
  - unfold ret. cbn [lb_line]. cbv beta iota. change (-1 <? 0) with true. cbv iota.
    unfold bind, perror. cbv beta iota.
    eexists. split; [done|]. rewrite !output_app, Ho1.
    rewrite (writes_other_output STDOUT_FILENO STDERR_FILENO e1 Hw1) by done. done.
Qed.

(** C10.  A process that runs [main] and is not a forked child ends by
    returning 0, or by [_exit(1)] right after its first failed write, which
    is a write to standard output or standard error.  (A forked child is
    replaced by the command or exits with 127.)  No store faults.  When
    reading standard input fails, [main] prints the error with
    [perror("read")] and still returns 0. *)
Theorem main_exit_status E fuel :
  match main E fuel [] with
  | Ret c tr => c = 0 /\ in_child tr = false /\ write_failed tr = false
  | Exited c tr =>
      (c = 1 /\ in_child tr = false /\
       exists tr0 fd data, tr = tr0 ++ [EvWrite fd data None] /\
         write_failed tr0 = false /\ (fd = STDOUT_FILENO \/ fd = STDERR_FILENO)) \/
      (c = 127 /\ in_child tr = true)
  | Replaced tr => in_child tr = true
  | Fault _ => False
  | OutOfFuel => True
  end /\
  (writes_progress E -> (forall t, env_read E t = ReadErr) -> (12 <= fuel)%nat ->
   exists tr0,
     main E fuel [] = Ret 0 (tr0 ++ [EvPerror (str "read") (env_strerror E tr0)]) /\
     output STDOUT_FILENO tr0 = PROMPT /\ output STDERR_FILENO tr0 = []).
Proof.
  split; [|apply main_read_error].
  pose proof (shell_step_main E fuel) as H.
  destruct (main E fuel []) as [c t|c t|t|t|]; try done; simpl in H.
  - by destruct H as (-> & evs & -> & Hc & Hf).
  - destruct H as (evs & -> & [(-> & Hc & e0 & fd & d & -> & Hf & Hfd)|(-> & Hc & _)]).
    + left. split; [done|]. split; [done|]. by exists e0, fd, d.
    + by right.
  - by destruct H as (evs & -> & Hc).
Qed.

(** ** The statements at concrete inputs *)

Lemma sample_writes_progress home input execs pid exec_ok wres :
  writes_progress (Sample.env home input execs pid exec_ok wres).
Proof. intros tr fd [|c buf] Hne; [done|]. by eexists. Qed.

(** [ls] is found in [/bin], runs and exits with code 3. *)
Lemma status_report_witness :
  exists evs line,
    execute_external (Sample.env (Some (str "/home/u")) [] [str "/bin/ls"] 4242 true (Some 768))
      64 [str "ls"] []
    = Ret tt ([EvAccess (str "/home/u/ls") false; EvAccess (str "/bin/ls") true]
              ++ [EvFork 4242; EvWaitpid 4242 (Some 768)] ++ evs) /\
    output STDOUT_FILENO evs = (str "Command executed successfully." ++ [LF]) ++ line ++ [LF] /\
    exists num, line = str "Command finished. Return code: " ++ num /\
      decimal_value num = 3 /\ 0 <= decimal_value num <= 255 /\
      forallb is_digit num = true /\ num <> [] /\
      (num = [digit_char 0] \/ exists d ds, num = digit_char d :: ds /\ 1 <= d <= 9).
Proof.
  edestruct (status_report
               (Sample.env (Some (str "/home/u")) [] [str "/bin/ls"] 4242 true (Some 768))
               64 [str "ls"] [])
    as (evs & line & Heq & _ & Hout & _ & _ & Hline).
  - vm_compute. reflexivity.
  - reflexivity.
  - reflexivity.
  - reflexivity.
  - apply sample_writes_progress.
  - lia.
  - intros _. vm_compute. split; discriminate.
  - exists evs, line. split; [exact Heq|]. split; [exact Hout|]. exact Hline.
Defined.

(** The home directory holds no [ls]; [/bin/ls] is executable. *)
Lemma resolver_order_witness :
  exists out_path',
    find_command_path (Sample.env (Some (str "/home/u")) [] [str "/bin/ls"] 1 true None)
      (str "ls") (replicate 16 "?"%char) 16 []
    = Ret (1, out_path') [EvAccess (str "/home/u/ls") false; EvAccess (str "/bin/ls") true] /\
    cstr_at out_path' 0 = str "/bin/ls".
Proof.
  destruct (resolver_refines
              (Sample.env (Some (str "/home/u")) [] [str "/bin/ls"] 1 true None)
              (str "ls") (replicate 16 "?"%char) 16 [])
    as (o & Heq & _ & Hp).
  - reflexivity.
  - intros h [= <-]. reflexivity.
  - reflexivity.
  - exists o. split; [exact Heq|]. apply Hp. reflexivity.
Defined.

(** The child of [fork] cannot start [/bin/ls]. *)
Lemma exec_failure_witness :
  execute_external (Sample.env None [] [str "/bin/ls"] 0 false None) 0 [str "ls"] []
  = Exited 127
      [EvAccess (str "/bin/ls") true; EvFork 0; EvExecv (str "/bin/ls") [str "ls"] false;
       EvPerror (str "exec") (str "No such file or directory")].
Proof.
  edestruct (exec_failure (Sample.env None [] [str "/bin/ls"] 0 false None) 0 [str "ls"] [])
    as (Heq & _).
  - vm_compute. reflexivity.
  - reflexivity.
  - reflexivity.
  - exact Heq.
Defined.

(** No [nope] anywhere. *)
Lemma unknown_command_witness :
  exists tr',
    execute_external (Sample.env (Some (str "/home/u")) [] [str "/bin/ls"] 1 true None)
      20 [str "nope"] [] = Ret tt tr' /\
    output STDERR_FILENO tr' = str "]nope]: Unknown Command[" ++ [LF] /\
    output STDOUT_FILENO tr' = [] /\ forks tr' = 0%nat.
Proof.
  edestruct (unknown_command (Sample.env (Some (str "/home/u")) [] [str "/bin/ls"] 1 true None)
               20 [str "nope"] []) as (_ & H).
  - vm_compute. reflexivity.
  - destruct H as (tr' & Heq & Herr & Hout & Hforks).
    + apply sample_writes_progress.
    + lia.
    + simpl. lia.
    + exists tr'. split; [exact Heq|]. split; [exact Herr|]. split; [exact Hout|exact Hforks].
Defined.

(** [waitpid] fails after a successful [fork]. *)
Lemma wait_failure_witness :
  execute_external (Sample.env None [] [str "/bin/ls"] 4242 true None) 0 [str "ls"] []
  = Ret tt [EvAccess (str "/bin/ls") true; EvFork 4242; EvWaitpid 4242 None;
            EvPerror (str "waitpid") (str "No such file or directory")].
Proof.
  edestruct (wait_failure (Sample.env None [] [str "/bin/ls"] 4242 true None) 0 [str "ls"] [])
    as (Heq & _).
  - vm_compute. reflexivity.
  - reflexivity.
  - reflexivity.
  - reflexivity.
  - exact Heq.
Defined.

(** A buffer of 10 bytes is too short for [/home/u/ls] and long enough for
    [/bin/ls]; a buffer of 12 bytes holds [//abcdefgh] but not
    [/bin/abcdefgh]. *)
Lemma path_overflow_witness :
  (exists out_path',
     find_command_path (Sample.env (Some (str "/home/u")) [] [str "/home/u/ls"; str "/bin/ls"]
                          1 true None)
       (str "ls") (replicate 10 "?"%char) 10 []
     = Ret (1, out_path') [EvAccess (str "/bin/ls") true] /\
     cstr_at out_path' 0 = str "/bin/ls") /\
  (exists out_path',
     find_command_path (Sample.env (Some (str "/")) [] [str "/bin/abcdefgh"] 1 true None)
       (str "abcdefgh") (replicate 12 "?"%char) 12 []
     = Ret (0, out_path') [EvAccess (str "//abcdefgh") false] /\
     cstr_at out_path' 0 = str "//abcdefgh").
Proof.
  split.
  - destruct (path_overflow_skipped
                (Sample.env (Some (str "/home/u")) [] [str "/home/u/ls"; str "/bin/ls"]
                   1 true None)
                (str "ls") (replicate 10 "?"%char) 10 []) as (_ & _ & _ & _ & H & _).
    + reflexivity.
    + destruct (H (str "/home/u")) as (o & Heq & Hp & _).
      * reflexivity.
      * vm_compute. reflexivity.
      * vm_compute. discriminate.
      * exists o. split; [exact Heq|exact Hp].
  - destruct (path_overflow_skipped
                (Sample.env (Some (str "/")) [] [str "/bin/abcdefgh"] 1 true None)
                (str "abcdefgh") (replicate 12 "?"%char) 12 []) as (_ & _ & _ & _ & _ & H).
    + reflexivity.
    + destruct (H "/"%char []) as (o & Heq & Hp & _).
      * reflexivity.
      * vm_compute. discriminate.
      * vm_compute. reflexivity.
      * exists o. split; [exact Heq|exact Hp].
Defined.

Lemma line_buffer_witness :
  match read_line (Sample.env None (Sample.typed (str "ls" ++ [LF])) [] 1 true None) 5
          (LineBuf None 0) [] with
  | Ret (rr, lb') _ => exists k, 0 <= k /\ lb_cap lb' = INITIAL_BUFSZ * 2 ^ k
  | _ => True
  end.
Proof.
  pose proof (proj1 (proj2 (line_buffer_invariant
                (Sample.env None (Sample.typed (str "ls" ++ [LF])) [] 1 true None)))
                5%nat (LineBuf None 0) [] I) as H.
  destruct (read_line _ 5 (LineBuf None 0) []) as [[rr lb'] t| | | |]; try exact I.
  destruct H as (evs & k & _ & _ & _ & Hk & Hcap & _). exists k. split; [exact Hk|exact Hcap].
Defined.

Lemma cd_builtin_witness :
  exists tr1 tr2,
    handle_cd (Sample.env (Some (str "/home/u")) [] [] 1 true None) 0 2 [str "cd"; str "/tmp"] []
      = Ret tt tr1 /\
    cwd_after (str "/") tr1 = str "/tmp" /\
    handle_cd (Sample.env (Some (str "/home/u")) [] [] 1 true None) 0 1 [str "cd"] tr1
      = Ret tt tr2 /\
    cwd_after (str "/") tr2 = str "/home/u".
Proof.
  destruct (cd_builtin (Sample.env (Some (str "/home/u")) [] [] 1 true None) 0 2
              [str "cd"; str "/tmp"] []) as (_ & _ & _ & _ & _ & H).
  apply (H (str "/")); reflexivity.
Defined.

(** Every read of standard input fails. *)
Lemma main_exit_status_witness :
  exists tr0,
    main (Sample.with_read (fun _ => ReadErr) (Sample.env None [] [] 1 true None)) 12 []
    = Ret 0 (tr0 ++ [EvPerror (str "read") (str "No such file or directory")]) /\
    output STDOUT_FILENO tr0 = PROMPT /\ output STDERR_FILENO tr0 = [].
Proof.
  destruct (main_exit_status
              (Sample.with_read (fun _ => ReadErr) (Sample.env None [] [] 1 true None)) 12)
    as [_ H].
  destruct H as (tr0 & Heq & Hout & Herr).
  - intros tr fd [|c buf] Hne; [done|]. by eexists.
  - reflexivity.
  - lia.
  - exists tr0. split; [exact Heq|]. split; [exact Hout|exact Herr].
Defined.

(** ** Runs of the whole shell *)

Example tokens_of_a_line :
  option_map tokens_of (parse_tokens (str "  ls  -l" ++ [TAB] ++ str "/tmp ") MAX_ARGS)
  = Some [str "ls"; str "-l"; str "/tmp"].
Proof. vm_compute. reflexivity. Qed.

Example tokens_of_blanks : option_map tokens_of (parse_tokens (str "   ") MAX_ARGS) = Some [].
Proof. vm_compute. reflexivity. Qed.

Example tokens_past_the_cap :
  length (spec_tokens (many_tokens 129)) = 129%nat /\
  option_map p_argc (parse_tokens (many_tokens 129) MAX_ARGS) = Some 127 /\
  option_map p_argc (parse_tokens (many_tokens 128) MAX_ARGS) = Some 127 /\
  option_map p_argc (parse_tokens (many_tokens 127) MAX_ARGS) = Some 127.
Proof. vm_compute. auto. Qed.

(** An executable in the home directory wins over [/bin]. *)
Example resolve_home_first :
  fst (Resolver.resolve (Sample.env (Some (str "/home/u")) [] [str "/home/u/ls"; str "/bin/ls"]
                           1 true None) (str "ls") [])
  = Some (str "/home/u/ls").
Proof. vm_compute. reflexivity. Qed.

(** End of stream at the first prompt: a newline, then status 0. *)
Example main_eof_at_first_prompt :
  let o := main (Sample.env None [] [] 1 true None) 20 [] in
  exit_status o = Some 0 /\
  option_map (output STDOUT_FILENO) (trace_of o) = Some (PROMPT ++ [LF]).
Proof. vm_compute. auto. Qed.

Example main_exit_command :
  let o := main (Sample.env None (Sample.typed (str "exit" ++ [LF] ++ str "ls" ++ [LF])) []
                   1 true None) 20 [] in
  exit_status o = Some 0 /\
  option_map (output STDOUT_FILENO) (trace_of o) = Some PROMPT.
Proof. vm_compute. auto. Qed.

(** The first write fails: status 1. *)
Example main_write_failure :
  main (Sample.with_write (fun _ _ _ => None) (Sample.env None [] [] 1 true None)) 20 []
  = Exited 1 [EvWrite STDOUT_FILENO PROMPT None].
Proof. vm_compute. reflexivity. Qed.

Example main_cd_then_home :
  let o := main (Sample.env (Some (str "/home/u"))
                   (Sample.typed (str "cd /tmp" ++ [LF] ++ str "cd" ++ [LF])) [] 1 true None)
             40 [] in
  exit_status o = Some 0 /\
  option_map (cwd_after (str "/")) (trace_of o) = Some (str "/home/u").
Proof. vm_compute. auto. Qed.

Example main_unknown_echo :
  let o := main (Sample.env (Some (str "/home/u")) (Sample.typed (str "echo" ++ [LF])) []
                   1 true None) 40 [] in
  option_map (output STDERR_FILENO) (trace_of o)
    = Some (str "]echo]: Unknown Command[" ++ [LF]) /\
  option_map (output STDOUT_FILENO) (trace_of o) = Some (PROMPT ++ PROMPT ++ [LF]) /\
  option_map forks (trace_of o) = Some 0%nat.
Proof. vm_compute. auto. Qed.

(** A command that exits with code 3. *)
Example main_return_code_3 :
  let o := main (Sample.env None (Sample.typed (str "ls -l" ++ [LF])) [str "/bin/ls"]
                   4242 true (Some 768)) 40 [] in
  option_map (output STDOUT_FILENO) (trace_of o)
    = Some (PROMPT ++ str "Command executed successfully." ++ [LF]
            ++ str "Command finished. Return code: 3" ++ [LF] ++ PROMPT ++ [LF]).
Proof. vm_compute. reflexivity. Qed.

(** A command that exits with code 0: the numeral is "0". *)
Example main_return_code_0 :
  let o := main (Sample.env None (Sample.typed (str "ls" ++ [LF])) [str "/bin/ls"]
                   4242 true (Some 0)) 40 [] in
  option_map (output STDOUT_FILENO) (trace_of o)
    = Some (PROMPT ++ str "Command executed successfully." ++ [LF]
            ++ str "Command finished. Return code: 0" ++ [LF] ++ PROMPT ++ [LF]).
Proof. vm_compute. reflexivity. Qed.

(** A child ended by signal 9. *)
Example main_signal_9 :
  let o := main (Sample.env None (Sample.typed (str "ls" ++ [LF])) [str "/bin/ls"]
                   4242 true (Some 9)) 40 [] in
  option_map (output STDOUT_FILENO) (trace_of o)
    = Some (PROMPT ++ str "Command executed successfully." ++ [LF]
            ++ str "Command terminated by signal: 9" ++ [LF] ++ PROMPT ++ [LF]).
Proof. vm_compute. reflexivity. Qed.

(** [waitpid] fails: no banner, the prompt comes back. *)
Example main_wait_failure :
  let o := main (Sample.env None (Sample.typed (str "ls" ++ [LF])) [str "/bin/ls"]
                   4242 true None) 40 [] in
  option_map (output STDOUT_FILENO) (trace_of o) = Some (PROMPT ++ PROMPT ++ [LF]) /\
  option_map (output STDERR_FILENO) (trace_of o)
    = Some (str "waitpid: No such file or directory" ++ [LF]).
Proof. vm_compute. auto. Qed.

(** A line longer than the first block: the buffer doubles once. *)
Example read_line_grows :
  match read_line (Sample.env None (Sample.typed (replicate 1500 "x"%char ++ [LF])) []
                     1 true None) 2000 (LineBuf None 0) [] with
  | Ret (rr, lb) _ =>
      rr = 1 /\ lb_cap lb = 2048 /\
      option_map (fun l => cstr_at l 0) (lb_line lb) = Some (replicate 1500 "x"%char)
  | _ => False
  end.
Proof. vm_compute. auto. Qed.

(** * Further properties of the code *)


(** ** More on decimal printing *)



(** X1.  For every [unsigned int] value [u32_to_str] writes its decimal
    numeral: digits only, at most ten of them (so the numeral and its
    terminator stay inside [out[32]], and the bound [t < sizeof(tmp)] of
    the loop never cuts a digit), no leading zero except for 0 itself, and
    reading the numeral back gives the value. *)
Theorem u32_to_str_numeral x :
  0 <= x <= UINT_MAX ->
  decimal_value (u32_to_str x) = x /\
  forallb is_digit (u32_to_str x) = true /\
  (1 <= length (u32_to_str x) <= 10)%nat /\
  (x = 0 -> u32_to_str x = [digit_char 0]) /\
  (0 < x -> exists d ds, u32_to_str x = digit_char d :: ds /\ 1 <= d <= 9).
Proof.
  intros Hx. split; [by apply u32_to_str_value|]. split; [apply u32_to_str_digits; lia|].
  assert (Hten : 2 ^ 32 - 1 < 10 ^ Z.of_nat 10) by (vm_compute; done).
  assert (H32 : 10 ^ Z.of_nat 10 < 10 ^ Z.of_nat 32) by (vm_compute; done).
  unfold UINT_MAX in Hx. split; [|split].
  - unfold u32_to_str. destruct (Z.eqb_spec x 0) as [->|Hne]; [simpl; lia|].
    rewrite length_rev. split; [|apply u32_digits_length; lia].
    cbn [u32_digits]. destruct (Z.gtb_spec x 0); [cbn [length]; lia|lia].
  - by intros ->.
  - intros Hpos. unfold u32_to_str. destruct (Z.eqb_spec x 0); [lia|].
    apply u32_digits_last; lia.
Qed.

Lemma u32_to_str_numeral_witness :
  decimal_value (u32_to_str 4294967295) = 4294967295 /\
  (1 <= length (u32_to_str 4294967295) <= 10)%nat.
Proof.
  destruct (u32_to_str_numeral 4294967295) as (Hv & _ & Hl & _).
  - vm_compute. split; discriminate.
  - split; [exact Hv|exact Hl].
Defined.



(** ** More on [write_all] *)

(** X2.  [write_all] makes no system call for an empty buffer.  When it
    returns, the chunks the successive writes took are, in order, the whole
    buffer.  When a write fails it exits with status 1 at once, and the
    bytes delivered before, followed by the bytes it was still holding, are
    the buffer: nothing was sent twice or skipped. *)
Theorem write_all_delivers E fuel fd buf tr :
  (buf = [] -> write_all E fuel fd buf tr = Ret tt tr) /\
  match write_all E fuel fd buf tr with
  | Ret _ tr' =>
      exists evs, tr' = tr ++ evs /\ Forall (is_write_to fd) evs /\
        output fd evs = buf /\ write_failed evs = false
  | Exited c tr' =>
      c = 1 /\ exists evs rest, tr' = tr ++ evs ++ [EvWrite fd rest None] /\
        Forall (is_write_to fd) evs /\ write_failed evs = false /\
        output fd evs ++ rest = buf /\ rest <> []
  | OutOfFuel => True
  | _ => False
  end.
Proof.
  split. { intros ->. by destruct fuel. }
  revert buf tr. induction fuel as [|fuel IH]; intros buf tr.
  - destruct buf; simpl; [|done]. exists []. by rewrite app_nil_r.
  - destruct buf as [|c buf]. { exists []. by rewrite app_nil_r. }
    cbn [write_all]. unfold bind, sys_write.
    destruct (env_write E tr fd (c :: buf)) as [k|]; cbn [option_map].
    2:{ split; [done|]. by exists [], (c :: buf). }
    set (n := Nat.min k (length (c :: buf))).
    specialize (IH (drop n (c :: buf)) (tr ++ [EvWrite fd (c :: buf) (Some n)])).
    assert (Hhead : forall evs, output fd (EvWrite fd (c :: buf) (Some n) :: evs)
                      = take n (c :: buf) ++ output fd evs).
    { intros evs. unfold output. cbn [map concat event_output]. by rewrite Z.eqb_refl. }
    destruct (write_all E fuel fd (drop n (c :: buf)) _) as [[] tr'|code tr'|?|?|]; try done.
    + destruct IH as (evs & -> & Hw & Ho & Hf).
      exists (EvWrite fd (c :: buf) (Some n) :: evs). split; [by rewrite <- app_assoc|].
      split; [constructor; [by eexists _, _|done]|]. split; [|done].
      rewrite Hhead, Ho. apply take_drop.
    + destruct IH as (-> & evs & rest & -> & Hw & Hf & Ho & Hne). split; [done|].
      exists (EvWrite fd (c :: buf) (Some n) :: evs), rest.
      split; [by rewrite <- !app_assoc|]. split; [constructor; [by eexists _, _|done]|].
      split; [done|]. split; [|done].
      rewrite Hhead, <- app_assoc, Ho. apply take_drop.
Qed.

(** X3.  [write_all] ends within [length buf] turns when every write takes
    at least one byte; it never ends when [write] keeps answering 0 for a
    buffer that is not empty, since 0 is not treated as an error. *)
Theorem write_all_termination E fd buf tr :
  (writes_progress E ->
   exists evs, write_all E (length buf) fd buf tr = Ret tt (tr ++ evs) /\
     (length evs <= length buf)%nat) /\
  (buf <> [] -> (forall t, env_write E t fd buf = Some 0%nat) ->
   forall fuel, write_all E fuel fd buf tr = OutOfFuel).
Proof.
  split.
  - intros Hp. remember (length buf) as fuel eqn:Hfuel.
    assert (Hle : (length buf <= fuel)%nat) by lia. clear Hfuel.
    revert buf tr Hle. induction fuel as [|fuel IH]; intros buf tr Hle.
    + destruct buf; [|simpl in Hle; lia]. exists []. by rewrite app_nil_r.
    + destruct buf as [|c buf]. { exists []. rewrite app_nil_r. split; [done|simpl; lia]. }
      cbn [write_all]. unfold bind, sys_write.
      destruct (Hp tr fd (c :: buf)) as [k ->]; [done|]. cbn [option_map].
      set (n := Nat.min (S k) (length (c :: buf))).
      assert (Hn : (1 <= n <= length (c :: buf))%nat) by (subst n; simpl; lia).
      destruct (IH (drop n (c :: buf)) (tr ++ [EvWrite fd (c :: buf) (Some n)]))
        as (evs & -> & Hlen).
      { rewrite length_drop. simpl in *. lia. }
      exists (EvWrite fd (c :: buf) (Some n) :: evs). split; [by rewrite <- app_assoc|].
      simpl. lia.
  - intros Hne Hzero fuel. revert tr. induction fuel as [|fuel IH]; intros tr.
    + by destruct buf.
    + destruct buf as [|c buf]; [done|]. cbn [write_all]. unfold bind, sys_write.
      rewrite Hzero. cbn [option_map]. change (Nat.min 0 (length (c :: buf))) with 0%nat.
      rewrite drop_0. apply IH.
Qed.

Lemma write_all_termination_witness :
  write_all (Sample.with_write (fun _ _ _ => Some 0%nat) (Sample.env None [] [] 1 true None))
    100 STDOUT_FILENO PROMPT [] = OutOfFuel.
Proof.
  destruct (write_all_termination
              (Sample.with_write (fun _ _ _ => Some 0%nat) (Sample.env None [] [] 1 true None))
              STDOUT_FILENO PROMPT []) as [_ H].
  apply H.
  - discriminate.
  - reflexivity.
Defined.



(** ** More on the tokenizer *)

Lemma peek_lt (l : list ascii) p : is_nul (peek l p) = false -> (p < length l)%nat.
Proof.
  intros H. destruct (Nat.lt_ge_cases p (length l)) as [|Hge]; [done|].
  unfold peek in H. by rewrite lookup_ge_None_2 in H.
Qed.

Lemma peek_Some (l : list ascii) p : (p < length l)%nat -> l !! p = Some (peek l p).
Proof.
  intros H. unfold peek. destruct (l !! p) eqn:Hl; [done|].
  apply lookup_ge_None in Hl. lia.
Qed.

Lemma skip_blanks_ge line p : (p <= skip_blanks line p)%nat.
Proof. unfold skip_blanks. lia. Qed.

Lemma skip_token_stop line p : is_tokchar (peek line (skip_token line p)) = false.
Proof.
  unfold skip_token. rewrite <- peek_drop. by apply run_length_stop.
Qed.

Lemma skip_token_gt line p :
  is_tokchar (peek line p) = true -> (p < skip_token line p)%nat.
Proof.
  intros H. unfold skip_token. rewrite <- (Nat.add_0_r p), <- peek_drop in H.
  destruct (drop p line) as [|c l]; [done|]. unfold peek in H. simpl in H.
  cbn [run_length]. rewrite H. lia.
Qed.

Lemma skip_blanks_stop line p : is_blank (peek line (skip_blanks line p)) = false.
Proof.
  unfold skip_blanks. rewrite <- peek_drop. by apply run_length_stop.
Qed.

(** The loop, followed on the function itself. *)
Lemma parse_loop_inplace fuel m line p argv line' argv' :
  parse_loop fuel m line p argv = Some (line', argv') ->
  length line' = length line /\
  (forall i, line' !! i = line !! i \/
     (exists c, line !! i = Some c /\ is_blank c = true) /\ line' !! i = Some NUL) /\
  exists offs, argv' = argv ++ offs /\
    Forall (fun o => p <= o < length line)%nat offs /\
    StronglySorted lt offs /\
    (Z.of_nat (length argv) <= m - 1 -> Z.of_nat (length argv') <= m - 1).
Proof.
  revert line p argv. induction fuel as [|fuel IH]; intros line p argv; [done|].
  cbn [parse_loop].
  assert (Hstop : Some (line, argv) = Some (line', argv') ->
    length line' = length line /\
    (forall i, line' !! i = line !! i \/
       (exists c, line !! i = Some c /\ is_blank c = true) /\ line' !! i = Some NUL) /\
    exists offs, argv' = argv ++ offs /\
      Forall (fun o => p <= o < length line)%nat offs /\
      StronglySorted lt offs /\
      (Z.of_nat (length argv) <= m - 1 -> Z.of_nat (length argv') <= m - 1)).
  { intros [= <- <-]. split; [done|]. split; [by left|]. exists [].
    rewrite app_nil_r. repeat split; [done|constructor|done]. }
  destruct (is_nul (peek line p)) eqn:Hn0; [done|].
  set (p1 := skip_blanks line p).
  destruct (is_nul (peek line p1)) eqn:Hn1; [done|].
  destruct (Z.geb_spec (Z.of_nat (length argv)) (m - 1)) as [Hfull|Hroom]; [done|].
  set (q := skip_token line p1).
  assert (Hp1 : (p <= p1 < length line)%nat).
  { split; [apply skip_blanks_ge|by apply peek_lt]. }
  assert (Htok : is_tokchar (peek line p1) = true).
  { unfold is_tokchar. rewrite Hn1. subst p1. by rewrite skip_blanks_stop. }
  assert (Hq : (p1 < q)%nat) by (by apply skip_token_gt).
  assert (Hcount : Z.of_nat (length (argv ++ [p1])) <= m - 1).
  { rewrite length_app. simpl. lia. }
  destruct (is_nul (peek line q)) eqn:Hnq; cbn [negb].
  - intros Hrec. destruct (IH _ _ _ Hrec) as (Hlen & Hmut & offs & -> & Hin & Hs & Hc).
    split; [done|]. split; [done|]. exists (p1 :: offs). split; [by rewrite <- app_assoc|].
    split; [|split].
    + constructor; [lia|]. eapply Forall_impl; [exact Hin|]. simpl. lia.
    + constructor; [done|]. eapply Forall_impl; [exact Hin|]. simpl. lia.
    + intros _. by apply Hc.
  - intros Hrec. destruct (IH _ _ _ Hrec) as (Hlen & Hmut & offs & -> & Hin & Hs & Hc).
    rewrite length_insert in Hlen, Hin.
    assert (Hql : (q < length line)%nat) by (by apply peek_lt).
    assert (Hbq : is_blank (peek line q) = true).
    { pose proof (skip_token_stop line p1) as H. fold q in H. unfold is_tokchar in H.
      rewrite Hnq in H. simpl in H. by destruct (is_blank (peek line q)). }
    split; [done|]. split.
    + intros i. destruct (decide (i = q)) as [->|Hne].
      * right. split; [exists (peek line q); split; [by apply peek_Some|done]|].
        destruct (Hmut q) as [H|[(c & H & Hb) _]].
        -- rewrite H. by apply list_lookup_insert_eq.
        -- rewrite list_lookup_insert_eq in H by done. injection H as <-. done.
      * destruct (Hmut i) as [H|[(c & H & Hb) H']].
        -- left. rewrite H. by apply list_lookup_insert_ne.
        -- right. split; [|done]. exists c. rewrite list_lookup_insert_ne in H by done. done.
    + exists (p1 :: offs). split; [by rewrite <- app_assoc|]. split; [|split].
      * constructor; [lia|]. eapply Forall_impl; [exact Hin|]. simpl. lia.
      * constructor; [done|]. eapply Forall_impl; [exact Hin|]. simpl. lia.
      * intros _. by apply Hc.
Qed.

(** X4.  [parse_tokens] works in place and only cuts: the line keeps its
    length, every byte is either unchanged or a blank replaced by the
    terminator, and the entries of [argv] are offsets inside the line in
    strictly increasing order, closed by the sentinel. *)
Theorem parse_tokens_in_place line max_args :
  exists r, parse_tokens line max_args = Some r /\
    length (p_line r) = length line /\
    (forall i, p_line r !! i = line !! i \/
       (exists c, line !! i = Some c /\ is_blank c = true) /\ p_line r !! i = Some NUL) /\
    exists offs, p_argv r = map Some offs ++ [None] /\
      Forall (fun o => o < length line)%nat offs /\
      StronglySorted lt offs.
Proof.
  destruct (parse_tokens_spec line max_args) as (r & Hr & _). exists r. split; [done|].
  revert Hr. unfold parse_tokens.
  destruct (parse_loop _ _ _ _ _) as [[l' offs]|] eqn:Hp; [|done].
  intros [= <-]. cbn [p_line p_argv].
  destruct (parse_loop_inplace _ _ _ _ _ _ _ Hp) as (Hlen & Hmut & offs' & Heq & Hin & Hs & _).
  simpl in Heq. subst offs'. split; [done|]. split; [done|]. exists offs.
  split; [done|]. split; [|done]. eapply Forall_impl; [exact Hin|]. simpl. lia.
Qed.

(** *** What a token is *)

Lemma c_str_no_nul l : forallb (fun c => negb (is_nul c)) (c_str l) = true.
Proof. apply run_length_take. Qed.

Lemma forallb_rev (f : ascii -> bool) l : forallb f l = true -> forallb f (rev l) = true.
Proof.
  rewrite !forallb_forall. intros H c Hc. apply H. by apply in_rev.
Qed.

Lemma rev_not_nil (l : list ascii) : l <> [] -> rev l <> [].
Proof.
  intros Hne Hr. apply (f_equal (@rev ascii)) in Hr. rewrite rev_involutive in Hr.
  by destruct Hne.
Qed.

Lemma split_blanks_tokens l cur :
  forallb (fun c => negb (is_nul c)) l = true ->
  forallb is_tokchar cur = true ->
  Forall (fun t => t <> [] /\ forallb is_tokchar t = true) (split_blanks l cur).
Proof.
  revert cur. induction l as [|c l IH]; intros cur Hl Hcur.
  - simpl. destruct cur as [|x cur]; [constructor|].
    constructor; [|constructor]. split; [by apply rev_not_nil|by apply forallb_rev].
  - cbn [forallb] in Hl. apply andb_prop in Hl as [Hc Hl]. cbn [split_blanks].
    destruct (is_blank c) eqn:Hb.
    + destruct cur as [|x cur]; [by apply IH|].
      constructor; [|by apply IH]. split; [by apply rev_not_nil|by apply forallb_rev].
    + apply IH; [done|]. cbn [forallb]. unfold is_tokchar at 1. by rewrite Hc, Hb, Hcur.
Qed.

Lemma split_blanks_nil l cur :
  split_blanks l cur = [] <-> cur = [] /\ forallb is_blank l = true.
Proof.
  revert cur. induction l as [|c l IH]; intros cur.
  - simpl. destruct cur; [done|]. split; [done|]. by intros [? _].
  - cbn [split_blanks forallb]. destruct (is_blank c) eqn:Hb.
    + destruct cur as [|x cur].
      * rewrite IH. simpl. tauto.
      * split; [done|]. by intros [? _].
    + rewrite IH. split; [by intros [? _]|]. by intros [_ ?].
Qed.

(** X5.  Every token [parse_tokens] hands out is a non-empty string without
    space, tab or terminator; and [argc] is 0 exactly when the text before
    the terminator holds nothing but spaces and tabs (the empty line
    included). *)
Theorem tokens_well_formed line :
  exists r, parse_tokens line MAX_ARGS = Some r /\
    Forall (fun t => t <> [] /\ forallb is_tokchar t = true) (tokens_of r) /\
    (p_argc r = 0 <-> forallb is_blank (c_str line) = true).
Proof.
  destruct (parse_tokens_spec line MAX_ARGS) as (r & Hr & _ & Htok & Hargc & _).
  exists r. split; [done|].
  assert (Hall : Forall (fun t => t <> [] /\ forallb is_tokchar t = true) (spec_tokens line)).
  { apply split_blanks_tokens; [apply c_str_no_nul|done]. }
  split. { rewrite Htok. by apply Forall_take. }
  rewrite Hargc, Htok. change (Z.to_nat (MAX_ARGS - 1)) with 127%nat.
  assert (Hnil : spec_tokens line = [] <-> forallb is_blank (c_str line) = true).
  { unfold spec_tokens. rewrite split_blanks_nil. tauto. }
  rewrite <- Hnil. destruct (spec_tokens line) as [|t ts]; [done|].
  cbn [take length]. split; [lia|done].
Qed.



(** ** The loop of [main], line by line *)

Lemma strcmp_eq_spec a b : strcmp_eq a b = true <-> a = b.
Proof.
  revert b. induction a as [|x a IH]; intros [|y b]; simpl; try done.
  rewrite andb_true_iff, IH, Ascii.eqb_eq. split; [by intros [-> ->]|by intros [= -> ->]].
Qed.

Lemma strcmp_eq_neq a b : a <> b -> strcmp_eq a b = false.
Proof.
  intros Hne. destruct (strcmp_eq a b) eqn:H; [|done]. by apply strcmp_eq_spec in H.
Qed.

(** After the prompt and a line, the turn is the dispatch on that line. *)
Lemma main_iter_line E fuel lb tr t1 t2 l cap :
  print_str E fuel STDOUT_FILENO PROMPT tr = Ret tt t1 ->
  read_line E fuel lb t1 = Ret (1, LineBuf (Some l) cap) t2 ->
  main_iter E fuel lb tr =
    (if is_nul (peek l 0) then ret (Continue (LineBuf (Some l) cap))
     else
       match parse_tokens l MAX_ARGS with
       | None => out_of_fuel
       | Some r =>
         let lb := LineBuf (Some (p_line r)) cap in
         let argc := p_argc r in
         let argv := tokens_of r in
         if argc =? 0 then ret (Continue lb)
         else if strcmp_eq (nth 0 argv []) (str "exit") then ret (Break lb)
         else if strcmp_eq (nth 0 argv []) (str "cd") then
           bind (handle_cd E fuel argc argv) (fun _ => ret (Continue lb))
         else
           bind (execute_external E fuel argv) (fun _ => ret (Continue lb))
       end) t2.
Proof.
  intros Hp Hr. unfold main_iter. rewrite (bind_Ret _ _ _ _ _ Hp).
  by rewrite (bind_Ret _ _ _ _ _ Hr).
Qed.

Lemma blank_line_scan l :
  forallb is_blank (c_str l) = true -> is_nul (peek l (skip_blanks l 0)) = true.
Proof.
  intros Hb. destruct (scan_run (fun c => negb (is_nul c)) l eq_refl) as (xs & rest & -> & _ & Hxs & Hrest).
  rewrite c_str_app, forallb_app in Hb by done. apply andb_prop in Hb as [Hb _].
  apply negb_false_iff in Hrest.
  assert (Hnb : is_blank (peek rest 0) = false).
  { apply not_true_is_false. intros H. apply blank_not_nul in H. congruence. }
  pose proof (skip_blanks_app [] xs rest Hb Hnb) as Hs. simpl in Hs. rewrite Hs.
  by rewrite peek_app_length.
Qed.

(** X6.  A line that holds only spaces and tabs (or nothing) is a no-op:
    once the prompt is written and the line read, the turn of [main] ends
    there, with the buffer as [read_line] left it, and asks for the next
    line. *)
Theorem blank_line_is_noop E fuel lb tr t1 t2 l cap :
  print_str E fuel STDOUT_FILENO PROMPT tr = Ret tt t1 ->
  read_line E fuel lb t1 = Ret (1, LineBuf (Some l) cap) t2 ->
  forallb is_blank (c_str l) = true ->
  main_iter E fuel lb tr = Ret (Continue (LineBuf (Some l) cap)) t2.
Proof.
  intros Hp Hr Hb. rewrite (main_iter_line E fuel lb tr t1 t2 l cap Hp Hr).
  destruct (is_nul (peek l 0)) eqn:Hn0; [done|].
  unfold parse_tokens. cbn [parse_loop]. rewrite Hn0, (blank_line_scan l Hb). done.
Qed.

(** X7.  Dispatch.  When the line has tokens [t :: ts], the argument vector
    is their first 127 and the turn of [main] is decided by [t] alone: the
    loop stops for [exit], whatever follows it; [cd] goes to [handle_cd];
    any other word goes to [execute_external], and the loop continues once
    that returns. *)
Theorem main_dispatch E fuel lb tr t1 t2 l cap t ts :
  print_str E fuel STDOUT_FILENO PROMPT tr = Ret tt t1 ->
  read_line E fuel lb t1 = Ret (1, LineBuf (Some l) cap) t2 ->
  spec_tokens l = t :: ts ->
  exists l',
    let argv := take 127 (t :: ts) in
    let argc := Z.of_nat (length argv) in
    let lb' := LineBuf (Some l') cap in
    length l' = length l /\
    (t = str "exit" -> main_iter E fuel lb tr = Ret (Break lb') t2) /\
    (t = str "cd" ->
       main_iter E fuel lb tr
       = bind (handle_cd E fuel argc argv) (fun _ => ret (Continue lb')) t2) /\
    (t <> str "exit" -> t <> str "cd" ->
       main_iter E fuel lb tr
       = bind (execute_external E fuel argv) (fun _ => ret (Continue lb')) t2).
Proof.
  intros Hp Hr Htoks.
  destruct (parse_tokens_spec l MAX_ARGS) as (r & Hparse & Hlen & Htok & Hargc & _).
  change (Z.to_nat (MAX_ARGS - 1)) with 127%nat in Htok. rewrite Htoks in Htok.
  exists (p_line r). cbv zeta. split; [done|].
  assert (Hn0 : is_nul (peek l 0) = false).
  { destruct (is_nul (peek l 0)) eqn:H; [|done].
    unfold spec_tokens in Htoks. by rewrite c_str_nul in Htoks. }
  assert (Hrun : main_iter E fuel lb tr =
    (if strcmp_eq t (str "exit") then ret (Break (LineBuf (Some (p_line r)) cap))
     else if strcmp_eq t (str "cd") then
       bind (handle_cd E fuel (Z.of_nat (length (take 127 (t :: ts)))) (take 127 (t :: ts)))
         (fun _ => ret (Continue (LineBuf (Some (p_line r)) cap)))
     else
       bind (execute_external E fuel (take 127 (t :: ts)))
         (fun _ => ret (Continue (LineBuf (Some (p_line r)) cap)))) t2).
  { rewrite (main_iter_line E fuel lb tr t1 t2 l cap Hp Hr), Hn0, Hparse. cbv zeta.
    rewrite Hargc, Htok. cbn [take length nth].
    destruct (Z.eqb_spec (Z.of_nat (S (length (take 126 ts)))) 0); [lia|]. done. }
  rewrite Hrun. split; [|split].
  - intros ->. done.
  - intros ->. done.
  - intros H1 H2. by rewrite (strcmp_eq_neq _ _ H1), (strcmp_eq_neq _ _ H2).
Qed.

Lemma blank_line_is_noop_witness :
  exists t2 l cap,
    main_iter (Sample.env None (Sample.typed (str "  " ++ [TAB; LF])) [] 1 true None) 20
      (LineBuf None 0) []
    = Ret (Continue (LineBuf (Some l) cap)) t2 /\ forks t2 = 0%nat.
Proof.
  eexists _, _, _. split.
  - eapply (blank_line_is_noop
              (Sample.env None (Sample.typed (str "  " ++ [TAB; LF])) [] 1 true None) 20
              (LineBuf None 0) []).
    + vm_compute. reflexivity.
    + vm_compute. reflexivity.
    + vm_compute. reflexivity.
  - vm_compute. reflexivity.
Defined.

Lemma main_dispatch_witness :
  exists lb' t2,
    main_iter (Sample.env None (Sample.typed (str "exit now" ++ [LF])) [] 1 true None) 20
      (LineBuf None 0) []
    = Ret (Break lb') t2.
Proof.
  edestruct (main_dispatch
               (Sample.env None (Sample.typed (str "exit now" ++ [LF])) [] 1 true None) 20
               (LineBuf None 0) []) as (l' & _ & Hexit & _).
  - vm_compute. reflexivity.
  - vm_compute. reflexivity.
  - vm_compute. reflexivity.
  - eexists _, _. apply Hexit. reflexivity.
Defined.

(** ** How a run of [main] ends at its first line *)

(** X8.  End of stream at the first prompt: with working writes and
    allocator, [main] writes the prompt, reads nothing, writes a newline and
    returns 0, with nothing on standard error and no process spawned. *)
Theorem main_eof E fuel :
  writes_progress E -> (forall t n, env_alloc E t n = true) ->
  (forall t, env_read E t = ReadEof) -> (12 <= fuel)%nat ->
  exists tr,
    main E fuel [] = Ret 0 tr /\
    output STDOUT_FILENO tr = PROMPT ++ [LF] /\
    output STDERR_FILENO tr = [] /\ forks tr = 0%nat.
Proof.
  intros Hp Halloc Hread Hfuel. destruct fuel as [|fuel]; [lia|].
  destruct fuel as [|fuel]; [lia|].
  unfold main. cbn [main_loop]. unfold main_iter.
  destruct (prints_print_str E (S fuel) STDOUT_FILENO PROMPT Hp ltac:(simpl; lia) [])
    as (e1 & Heq1 & Hw1 & Ho1 & _).
  unfold bind at 1. unfold bind at 1. rewrite Heq1. cbv beta iota.
  unfold bind at 1. unfold read_line. unfold bind at 1. unfold bind at 1. unfold malloc.
  cbv beta iota. rewrite Halloc. change (INITIAL_BUFSZ <=? PTRDIFF_MAX) with true.
  cbn [andb]. unfold ret at 1. cbn [lb_line lb_cap read_line_loop]. unfold bind at 1.
  unfold read_line_iter. change (size_t (0 + 2) >? INITIAL_BUFSZ) with false. cbv iota.
  unfold bind at 1. unfold ret at 1. cbv beta iota. unfold bind at 1. unfold sys_read.
  rewrite Hread. change (0 =? 0) with true. cbv iota. unfold ret at 1. unfold ret at 1.
  cbv beta iota. change (0 <? 0) with false. cbv iota.
  change (0 =? 0) with true. cbv iota.
  destruct (prints_print_str E (S fuel) STDOUT_FILENO [LF] Hp ltac:(simpl; lia)
              ((([] ++ e1) ++ [EvMalloc INITIAL_BUFSZ true]) ++ [EvRead ReadEof]))
    as (e2 & Heq2 & Hw2 & Ho2 & _).
  unfold bind at 1. unfold bind at 1. rewrite Heq2. unfold ret. cbv beta iota.
  eexists. split; [done|].
  rewrite !output_app, !forks_app, Ho1, Ho2.
  rewrite (writes_other_output STDOUT_FILENO STDERR_FILENO e1 Hw1) by done.
  rewrite (writes_other_output STDOUT_FILENO STDERR_FILENO e2 Hw2) by done.
  rewrite (writes_forks _ _ Hw1), (writes_forks _ _ Hw2).
  split; [|split]; [|done|done]. simpl. by rewrite ?app_nil_r.
Qed.

Lemma main_eof_witness :
  exists tr, main (Sample.env None [] [] 1 true None) 12 [] = Ret 0 tr /\
    output STDOUT_FILENO tr = PROMPT ++ [LF].
Proof.
  destruct (main_eof (Sample.env None [] [] 1 true None) 12) as (tr & Heq & Hout & _).
  - apply sample_writes_progress.
  - reflexivity.
  - reflexivity.
  - lia.
  - exists tr. split; [exact Heq|exact Hout].
Defined.

(** X9.  When the first allocation of the line buffer fails, nothing is
    read: [main] reports the failure as a read error with [perror("read")]
    and returns 0. *)
Theorem main_alloc_failure E fuel :
  writes_progress E -> (forall t n, env_alloc E t n = false) -> (12 <= fuel)%nat ->
  exists e1,
    main E fuel []
    = Ret 0 (e1 ++ [EvMalloc INITIAL_BUFSZ false;
                    EvPerror (str "read") (env_strerror E (e1 ++ [EvMalloc INITIAL_BUFSZ false]))]) /\
    Forall (is_write_to STDOUT_FILENO) e1 /\ output STDOUT_FILENO e1 = PROMPT.
Proof.
  intros Hp Halloc Hfuel. destruct fuel as [|fuel]; [lia|].
  destruct fuel as [|fuel]; [lia|].
  unfold main. cbn [main_loop]. unfold main_iter.
  destruct (prints_print_str E (S fuel) STDOUT_FILENO PROMPT Hp ltac:(simpl; lia) [])
    as (e1 & Heq1 & Hw1 & Ho1 & _).
  unfold bind at 1. unfold bind at 1. rewrite Heq1. cbv beta iota.
  unfold bind at 1. unfold read_line. unfold bind at 1. unfold bind at 1. unfold malloc.
  cbv beta iota. rewrite Halloc, andb_false_r. unfold ret. cbn [lb_line]. cbv beta iota.
  change (-1 <? 0) with true. cbv iota. unfold bind, perror. cbv beta iota.
  exists e1. rewrite <- !app_assoc. simpl app. done.
Qed.

Lemma main_alloc_failure_witness :
  exists e1,
    main (Sample.with_alloc (fun _ _ => false) (Sample.env None [] [] 1 true None)) 12 []
    = Ret 0 (e1 ++ [EvMalloc INITIAL_BUFSZ false;
                    EvPerror (str "read") (str "No such file or directory")]).
Proof.
  destruct (main_alloc_failure
              (Sample.with_alloc (fun _ _ => false) (Sample.env None [] [] 1 true None)) 12)
    as (e1 & Heq & _).
  - intros tr fd [|c buf] Hne; [done|]. by eexists.
  - reflexivity.
  - lia.
  - exists e1. exact Heq.
Defined.


(** ** What [read_line] leaves in the buffer *)

Lemma input_bytes_app tr1 tr2 : input_bytes (tr1 ++ tr2) = input_bytes tr1 ++ input_bytes tr2.
Proof. unfold input_bytes. by rewrite map_app, concat_app. Qed.

(** One turn of the loop, seen from standard input. *)
Lemma read_line_iter_input E line cap len tr :
  match read_line_iter E line cap len tr with
  | Ret (RlAgain line' cap' len') tr' =>
      exists evs c, tr' = tr ++ evs /\ input_bytes evs = [c] /\ c <> LF /\
        line' !! Z.to_nat len = Some c
  | Ret (RlReturn rr lb) tr' =>
      exists evs, tr' = tr ++ evs /\
        ((rr = 1 /\ (input_bytes evs = [LF] \/ (input_bytes evs = [] /\ len <> 0))) \/
         (rr = 0 /\ len = 0 /\ input_bytes evs = []) \/
         (rr = -1 /\ input_bytes evs = []))
  | _ => True
  end.
Proof.
  unfold read_line_iter.
  assert (Hrest : forall l1 c1 t e0, t = tr ++ e0 -> input_bytes e0 = [] ->
    match
      (let* r := sys_read E in
       match r with
       | ReadErr => ret (RlReturn (-1) (LineBuf (Some l1) c1))
       | ReadEof =>
         if len =? 0 then ret (RlReturn 0 (LineBuf (Some l1) c1))
         else read_line_finish l1 c1 len
       | ReadByte c =>
         if Ascii.eqb c LF then read_line_finish l1 c1 len
         else
           let* line := store l1 len c in
           ret (RlAgain line c1 (size_t (len + 1)))
       end) t
    with
    | Ret (RlAgain line' cap' len') tr' =>
        exists evs c, tr' = tr ++ evs /\ input_bytes evs = [c] /\ c <> LF /\
          line' !! Z.to_nat len = Some c
    | Ret (RlReturn rr lb) tr' =>
        exists evs, tr' = tr ++ evs /\
          ((rr = 1 /\ (input_bytes evs = [LF] \/ (input_bytes evs = [] /\ len <> 0))) \/
           (rr = 0 /\ len = 0 /\ input_bytes evs = []) \/
           (rr = -1 /\ input_bytes evs = []))
    | _ => True
    end).
  { intros l1 c1 t e0 -> He0. unfold bind at 1. unfold sys_read.
    destruct (env_read E (tr ++ e0)) as [| |c]; cbv beta iota.
    - unfold ret. exists (e0 ++ [EvRead ReadErr]). rewrite app_assoc, input_bytes_app, He0.
      split; [done|]. right; right. done.
    - destruct (Z.eqb_spec len 0) as [Hz|Hnz].
      + unfold ret. exists (e0 ++ [EvRead ReadEof]). rewrite app_assoc, input_bytes_app, He0.
        split; [done|]. right; left. done.
      + unfold read_line_finish, bind, store, ret, fault.
        destruct ((0 <=? len) && (len <? strlen l1)); [|done].
        exists (e0 ++ [EvRead ReadEof]). rewrite app_assoc, input_bytes_app, He0.
        split; [done|]. left. split; [done|]. right. done.
    - destruct (Ascii.eqb_spec c LF) as [->|Hne].
      + unfold read_line_finish, bind, store, ret, fault.
        destruct ((0 <=? len) && (len <? strlen l1)); [|done].
        exists (e0 ++ [EvRead (ReadByte LF)]). rewrite app_assoc, input_bytes_app, He0.
        split; [done|]. left. split; [done|]. left. done.
      + unfold bind, store, ret, fault.
        destruct ((0 <=? len) && (len <? strlen l1)) eqn:Hb; [|done].
        exists (e0 ++ [EvRead (ReadByte c)]), c. rewrite app_assoc, input_bytes_app, He0.
        split; [done|]. split; [done|]. split; [done|].
        apply list_lookup_insert_eq. unfold strlen in Hb. lia. }
  unfold bind at 1.
  destruct (size_t (len + 2) >? cap).
  - cbv zeta. unfold bind at 1. unfold realloc.
    destruct ((size_t (cap * 2) <=? PTRDIFF_MAX) && env_alloc E tr (size_t (cap * 2))).
    + unfold ret at 1. cbv beta iota.
      by apply (Hrest _ _ _ [EvRealloc (size_t (cap * 2)) true]).
    + unfold ret. eexists [_]. split; [done|]. right; right. done.
  - unfold ret at 1. cbv beta iota. apply (Hrest _ _ _ []); [by rewrite app_nil_r|done].
Qed.

Lemma read_line_loop_input E fuel line cap len tr :
  buf_inv line cap len ->
  match read_line_loop E fuel line cap len tr with
  | Ret (rr, lb) tr' =>
      exists evs l, tr' = tr ++ evs /\ lb_line lb = Some l /\
        (rr = 1 ->
         exists body,
           take (Z.to_nat len + length body) l = take (Z.to_nat len) line ++ body /\
           l !! (Z.to_nat len + length body)%nat = Some NUL /\
           forallb (fun c => negb (Ascii.eqb c LF)) body = true /\
           (input_bytes evs = body ++ [LF] \/
            (input_bytes evs = body /\ (0 < Z.to_nat len + length body)%nat))) /\
        (rr = 0 -> len = 0 /\ input_bytes evs = []) /\
        (rr = 1 \/ rr = 0 \/ rr = -1)
  | _ => True
  end.
Proof.
  revert line cap len tr. induction fuel as [|fuel IH]; intros line cap len tr Hinv; [done|].
  cbn [read_line_loop]. unfold bind at 1.
  destruct (read_line_iter_inv E line cap len tr Hinv) as (e1 & _ & Hit).
  pose proof (read_line_iter_input E line cap len tr) as Hin.
  pose proof Hinv as (_ & Hlen & _).
  destruct (read_line_iter E line cap len tr) as [[l1 c1 n1|rr lb] t1| | | |]; try done.
  - destruct Hit as (_ & Hinv1 & _ & -> & Htk & _).
    destruct Hin as (evs1 & c & -> & Hc & Hne & Hl1).
    specialize (IH l1 c1 (len + 1) (tr ++ evs1) Hinv1).
    destruct (read_line_loop E fuel l1 c1 (len + 1) (tr ++ evs1)) as [[rr lb] t2| | | |]; try done.
    destruct IH as (evs2 & l & -> & Hlb & H1 & H0 & Hrr).
    exists (evs1 ++ evs2), l. split; [by rewrite app_assoc|]. split; [done|].
    replace (Z.to_nat (len + 1)) with (S (Z.to_nat len)) in H1 by lia.
    split; [|split].
    + intros Hr. destruct (H1 Hr) as (body & Htake & Hnul & Hlf & Hend).
      exists (c :: body). cbn [length].
      replace (Z.to_nat len + S (length body))%nat with (S (Z.to_nat len) + length body)%nat by lia.
      split. { rewrite Htake, (take_S_r _ _ _ Hl1), Htk, <- app_assoc. done. }
      split; [done|]. split.
      { cbn [forallb]. rewrite Hlf, andb_true_r. apply negb_true_iff.
        by destruct (Ascii.eqb_spec c LF). }
      rewrite input_bytes_app, Hc. destruct Hend as [->|[-> _]]; [by left|].
      right. split; [done|lia].
    + intros Hr. destruct (H0 Hr) as [? _]. lia.
    + done.
  - destruct Hit as (_ & l' & c' & -> & _ & _ & _ & Htk & Hrr).
    destruct Hin as (evs & -> & Hcase). unfold ret.
    exists evs, l'. split; [done|]. split; [done|]. split; [|split].
    + intros ->. exists []. rewrite Nat.add_0_r, app_nil_r. split; [done|].
      split. { destruct Hrr as [?|[?|[_ ?]]]; [lia|lia|done]. }
      split; [done|].
      destruct Hcase as [(_ & [H|[H Hnz]])|[(? & _)|(? & _)]]; try lia.
      * by left.
      * right. split; [done|]. simpl. lia.
    + intros ->. destruct Hcase as [(? & _)|[(_ & ? & ?)|(? & _)]]; try lia. done.
    + destruct Hcase as [(? & _)|[(? & _)|(? & _)]]; auto.
Qed.

Lemma split_at_terminator (l body : list ascii) :
  take (length body) l = body -> l !! length body = Some NUL ->
  exists rest, l = body ++ NUL :: rest.
Proof.
  intros Ht Hn. exists (drop (S (length body)) l).
  rewrite <- Ht at 1. symmetry. by apply take_drop_middle.
Qed.

(** X10.  What [read_line] returns is what was typed.  On return 1 the
    buffer holds the bytes read before the newline (none of them a
    newline), then the terminator, and standard input delivered exactly
    those bytes and the newline, or those bytes up to the end of the stream
    when the last line is not terminated (it is then not empty).  When no
    byte of the line is a NUL the C string in the buffer is the line.  On
    return 0 no byte was read. *)
Theorem read_line_content E fuel lb tr :
  lb_good lb ->
  match read_line E fuel lb tr with
  | Ret (rr, lb') tr' =>
      exists evs, tr' = tr ++ evs /\
        (rr = 1 ->
         exists l body,
           lb_line lb' = Some l /\
           take (length body) l = body /\ l !! length body = Some NUL /\
           forallb (fun c => negb (Ascii.eqb c LF)) body = true /\
           (input_bytes evs = body ++ [LF] \/ (input_bytes evs = body /\ body <> [])) /\
           (is_c_string body -> cstr_at l 0 = body)) /\
        (rr = 0 -> input_bytes evs = []) /\
        (rr = 1 \/ rr = 0 \/ rr = -1)
  | _ => True
  end.
Proof.
  intros Hgood.
  assert (Hloop : forall line cap e0, buf_inv line cap 0 -> input_bytes e0 = [] ->
    match read_line_loop E fuel line cap 0 (tr ++ e0) with
    | Ret (rr, lb') tr' =>
        exists evs, tr' = tr ++ evs /\
          (rr = 1 ->
           exists l body,
             lb_line lb' = Some l /\
             take (length body) l = body /\ l !! length body = Some NUL /\
             forallb (fun c => negb (Ascii.eqb c LF)) body = true /\
             (input_bytes evs = body ++ [LF] \/ (input_bytes evs = body /\ body <> [])) /\
             (is_c_string body -> cstr_at l 0 = body)) /\
          (rr = 0 -> input_bytes evs = []) /\
          (rr = 1 \/ rr = 0 \/ rr = -1)
    | _ => True
    end).
  { intros line cap e0 Hinv He0.
    pose proof (read_line_loop_input E fuel line cap 0 (tr ++ e0) Hinv) as H.
    destruct (read_line_loop E fuel line cap 0 (tr ++ e0)) as [[rr lb'] t2| | | |]; try done.
    destruct H as (evs & l & -> & Hlb & H1 & H0 & Hrr).
    exists (e0 ++ evs). split; [by rewrite app_assoc|]. rewrite input_bytes_app, He0.
    split; [|split; [|done]].
    - intros Hr. destruct (H1 Hr) as (body & Htake & Hnul & Hlf & Hend).
      change (Z.to_nat 0) with 0%nat in *. simpl in Htake, Hnul, Hend.
      exists l, body. split; [done|]. split; [done|]. split; [done|]. split; [done|].
      split.
      + destruct Hend as [?|[? Hpos]]; [by left|]. right. split; [done|].
        intros ->. simpl in Hpos. lia.
      + intros Hcs. destruct (split_at_terminator l body Htake Hnul) as (rest & ->).
        unfold cstr_at. rewrite drop_0, c_str_cut. by apply c_str_id.
    - intros Hr. by destruct (H0 Hr). }
  assert (Hfresh :
    match (let* lb0 :=
             (let* ok := malloc E INITIAL_BUFSZ in
              ret (LineBuf (if ok then Some (replicate (Z.to_nat INITIAL_BUFSZ) (env_junk E)) else None)
                           INITIAL_BUFSZ)) in
           match lb_line lb0 with
           | None => ret (-1, lb0)
           | Some line => read_line_loop E fuel line (lb_cap lb0) 0
           end) tr with
    | Ret (rr, lb') tr' =>
        exists evs, tr' = tr ++ evs /\
          (rr = 1 ->
           exists l body,
             lb_line lb' = Some l /\
             take (length body) l = body /\ l !! length body = Some NUL /\
             forallb (fun c => negb (Ascii.eqb c LF)) body = true /\
             (input_bytes evs = body ++ [LF] \/ (input_bytes evs = body /\ body <> [])) /\
             (is_c_string body -> cstr_at l 0 = body)) /\
          (rr = 0 -> input_bytes evs = []) /\
          (rr = 1 \/ rr = 0 \/ rr = -1)
    | _ => True
    end).
  { unfold bind, malloc, ret.
    destruct ((INITIAL_BUFSZ <=? PTRDIFF_MAX) && env_alloc E tr INITIAL_BUFSZ);
      cbn [lb_line lb_cap].
    - apply (Hloop _ _ [EvMalloc INITIAL_BUFSZ true]); [|done].
      split; [|done]. unfold strlen. by rewrite length_replicate.
    - exists [EvMalloc INITIAL_BUFSZ false]. split; [done|]. split; [done|]. split; [done|].
      right; right. done. }
  unfold read_line. destruct lb as [[line|] cap]; [|exact Hfresh].
  destruct (Z.eqb_spec cap 0) as [->|Hne]; [exact Hfresh|].
  rewrite (bind_Ret _ _ _ _ _ (eq_refl : ret _ tr = Ret _ tr)). cbn [lb_line lb_cap].
  destruct Hgood as [Hl Hc]. simpl in Hl, Hc.
  pose proof (Hloop line cap [] ltac:(split; [done|unfold strlen in *; lia]) eq_refl) as H.
  by rewrite app_nil_r in H.
Qed.

Lemma read_line_content_witness :
  match read_line (Sample.env None (Sample.typed (str "ls -l" ++ [LF])) [] 1 true None) 10
          (LineBuf None 0) [] with
  | Ret (rr, lb') _ => rr = 1 \/ rr = 0 \/ rr = -1
  | _ => True
  end.
Proof.
  pose proof (read_line_content
                (Sample.env None (Sample.typed (str "ls -l" ++ [LF])) [] 1 true None) 10%nat
                (LineBuf None 0) [] I) as H.
  destruct (read_line _ 10 (LineBuf None 0) []) as [[rr lb'] t| | | |]; try exact I.
  destruct H as (evs & _ & _ & _ & Hrr). exact Hrr.
Defined.


(** ** What the resolver found, and what is done with it *)

Lemma find_command_path_events E cmd out_path out_sz tr :
  strlen out_path = out_sz ->
  exists found out_path' evs,
    find_command_path E cmd out_path out_sz tr = Ret (found, out_path') (tr ++ evs) /\
    (length evs <= 2)%nat /\
    ((found = 1 /\ exists evs0, evs = evs0 ++ [EvAccess (cstr_at out_path' 0) true] /\
        Forall is_denied evs0) \/
     (found = 0 /\ Forall is_denied evs)).
Proof.
  intros Hsz. unfold find_command_path, bind.
  assert (Hhome : exists f1 o1 e1,
    match env_home E with
    | Some (c :: home') => try_dir E (c :: home') cmd out_path out_sz
    | _ => ret (false, out_path)
    end tr = Ret (f1, o1) (tr ++ e1) /\ length o1 = length out_path /\
    (length e1 <= 1)%nat /\
    if f1 then e1 = [EvAccess (cstr_at o1 0) true] else Forall is_denied e1).
  { destruct (env_home E) as [[|c h]|].
    - exists false, out_path, []. rewrite app_nil_r. repeat split; [simpl; lia|constructor].
    - destruct (try_dir_spec E (c :: h) cmd out_path out_sz tr Hsz) as (o & Hlen & H).
      destruct (_ <=? _).
      + destruct H as [-> Hp]. cbv zeta in Hp. rewrite <- Hp.
        destruct (env_access E tr (cstr_at o 0)) eqn:Hok.
        * exists true, o, [EvAccess (cstr_at o 0) true]. repeat split; [done|simpl; lia].
        * exists false, o, [EvAccess (cstr_at o 0) false].
          repeat split; [done|simpl; lia|]. constructor; [by eexists|constructor].
      + destruct H as [-> ->]. exists false, out_path, []. rewrite app_nil_r.
        repeat split; [simpl; lia|constructor].
    - exists false, out_path, []. rewrite app_nil_r. repeat split; [simpl; lia|constructor]. }
  destruct Hhome as (f1 & o1 & e1 & -> & Hlen1 & Hn1 & He1).
  destruct f1.
  { exists 1, o1, e1. split; [done|]. split; [lia|]. left. split; [done|].
    exists []. split; [done|constructor]. }
  destruct (try_dir_spec E (str "/bin") cmd o1 out_sz (tr ++ e1)) as (o & Hlen & H).
  { unfold strlen in *. lia. }
  destruct (_ <=? _).
  - destruct H as [-> Hp]. cbv zeta in Hp. rewrite <- Hp.
    destruct (env_access E (tr ++ e1) (cstr_at o 0)) eqn:Hok.
    + exists 1, o, (e1 ++ [EvAccess (cstr_at o 0) true]). rewrite app_assoc.
      split; [done|]. split; [rewrite length_app; simpl; lia|]. left. split; [done|].
      by exists e1.
    + exists 0, o, (e1 ++ [EvAccess (cstr_at o 0) false]). rewrite app_assoc.
      split; [done|]. split; [rewrite length_app; simpl; lia|]. right. split; [done|].
      apply Forall_app. split; [done|]. constructor; [by eexists|constructor].
  - destruct H as [-> ->]. exists 0, o1, e1. split; [done|]. split; [lia|]. by right.
Qed.

(** X11.  [find_command_path] makes at most two permission tests and is
    sound: when it returns 1 its last test succeeded, on exactly the string
    it leaves in the buffer, and every test before was refused; when it
    returns 0 every test it made was refused. *)
Theorem find_command_path_sound E cmd out_path out_sz tr :
  strlen out_path = out_sz ->
  exists found out_path' evs,
    find_command_path E cmd out_path out_sz tr = Ret (found, out_path') (tr ++ evs) /\
    (length evs <= 2)%nat /\
    ((found = 1 /\ exists evs0, evs = evs0 ++ [EvAccess (cstr_at out_path' 0) true] /\
        Forall is_denied evs0) \/
     (found = 0 /\ Forall is_denied evs)).
Proof. apply find_command_path_events. Qed.

Lemma find_command_path_sound_witness :
  exists found out_path' evs,
    find_command_path (Sample.env (Some (str "/home/u")) [] [str "/bin/ls"] 1 true None)
      (str "ls") (replicate 16 "?"%char) 16 [] = Ret (found, out_path') ([] ++ evs) /\
    (length evs <= 2)%nat.
Proof.
  destruct (find_command_path_sound
              (Sample.env (Some (str "/home/u")) [] [str "/bin/ls"] 1 true None)
              (str "ls") (replicate 16 "?"%char) 16 []) as (f & o & evs & Heq & Hlen & _).
  - reflexivity.
  - exists f, o, evs. split; [exact Heq|exact Hlen].
Defined.

(** X12.  When [fork] fails, [execute_external] reports it with
    [perror("fork")] and returns: no child is waited for, nothing is
    written to standard output. *)
Theorem fork_failure E fuel argv tr pb tr1 pid :
  find_command_path E (nth 0 argv []) (path_buf0 E) PATH_BUF_SZ tr = Ret (1, pb) tr1 ->
  env_fork E tr1 = pid -> pid < 0 ->
  let tr2 := tr1 ++ [EvFork pid] in
  let tr3 := tr2 ++ [EvPerror (str "fork") (env_strerror E tr2)] in
  execute_external E fuel argv tr = Ret tt tr3 /\
  output STDOUT_FILENO tr3 = output STDOUT_FILENO tr /\
  output STDERR_FILENO tr3
    = output STDERR_FILENO tr ++ str "fork: " ++ env_strerror E tr2 ++ [LF] /\
  in_child tr3 = in_child tr.
Proof.
  intros Hres Hfork Hpid tr2 tr3.
  destruct (find_command_path_total E (nth 0 argv []) (path_buf0 E) PATH_BUF_SZ tr
              (path_buf0_length E)) as (f & o & e0 & Heq & _ & Hacc & _).
  rewrite Hres in Heq. injection Heq as _ _ ->. subst tr3 tr2.
  split.
  { unfold execute_external, bind. rewrite Hres. cbv beta iota. change (1 =? 0) with false.
    cbv iota. unfold fork. rewrite Hfork. cbv beta iota.
    destruct (Z.ltb_spec pid 0); [|lia]. done. }
  rewrite !output_app, !in_child_app, (access_output STDOUT_FILENO e0 Hacc),
    (access_output STDERR_FILENO e0 Hacc), !app_nil_r.
  split; [done|]. split.
  { f_equal. unfold output. simpl. by rewrite app_nil_r. }
  rewrite (quiet_in_child e0 (access_quiet e0 Hacc)). simpl.
  destruct (Z.eqb_spec pid 0); [lia|]. by rewrite !orb_false_r.
Qed.

Lemma fork_failure_witness :
  execute_external (Sample.env None [] [str "/bin/ls"] (-1) true None) 0 [str "ls"] []
  = Ret tt [EvAccess (str "/bin/ls") true; EvFork (-1);
            EvPerror (str "fork") (str "No such file or directory")].
Proof.
  edestruct (fork_failure (Sample.env None [] [str "/bin/ls"] (-1) true None) 0 [str "ls"] [])
    as (Heq & _).
  - vm_compute. reflexivity.
  - reflexivity.
  - reflexivity.
  - exact Heq.
Defined.

(** X13.  The program the child starts is the one that passed the test:
    when [execv] succeeds the child is replaced, having called [execv] on
    the very path whose permission test closed the resolution, with the
    argument vector it was given (so [argv[0]] is the word typed, not the
    path), and having written nothing. *)
Theorem exec_success E fuel argv tr pb tr1 :
  find_command_path E (nth 0 argv []) (path_buf0 E) PATH_BUF_SZ tr = Ret (1, pb) tr1 ->
  env_fork E tr1 = 0 ->
  env_execv E (tr1 ++ [EvFork 0]) (cstr_at pb 0) argv = true ->
  exists evs0,
    tr1 = tr ++ evs0 ++ [EvAccess (cstr_at pb 0) true] /\ Forall is_denied evs0 /\
    execute_external E fuel argv tr
      = Replaced (tr1 ++ [EvFork 0; EvExecv (cstr_at pb 0) argv true]) /\
    output STDOUT_FILENO (tr1 ++ [EvFork 0; EvExecv (cstr_at pb 0) argv true])
      = output STDOUT_FILENO tr /\
    output STDERR_FILENO (tr1 ++ [EvFork 0; EvExecv (cstr_at pb 0) argv true])
      = output STDERR_FILENO tr.
Proof.
  intros Hres Hfork Hexec.
  destruct (find_command_path_events E (nth 0 argv []) (path_buf0 E) PATH_BUF_SZ tr
              (path_buf0_length E)) as (f & o & evs & Heq & _ & Hcase).
  rewrite Hres in Heq. injection Heq as <- <- ->.
  destruct Hcase as [(_ & evs0 & -> & Hden)|(? & _)]; [|done].
  exists evs0. split; [done|]. split; [done|]. split.
  { unfold execute_external, bind. rewrite Hres. cbv beta iota. change (1 =? 0) with false.
    cbv iota. unfold fork. rewrite Hfork. cbv beta iota. change (0 <? 0) with false.
    change (0 =? 0) with true. cbv iota. unfold execv. rewrite Hexec.
    by rewrite <- !app_assoc. }
  assert (Hq : forall fd, output fd evs0 = []).
  { intros fd. clear -Hden. induction Hden as [|e l [p ->] _ IH]; [done|].
    unfold output in *. simpl. done. }
  rewrite !output_app, !Hq. simpl. by rewrite !app_nil_r.
Qed.

Lemma exec_success_witness :
  execute_external (Sample.env None [] [str "/bin/ls"] 0 true None) 0 [str "ls"; str "-l"] []
  = Replaced [EvAccess (str "/bin/ls") true; EvFork 0;
              EvExecv (str "/bin/ls") [str "ls"; str "-l"] true].
Proof.
  edestruct (exec_success (Sample.env None [] [str "/bin/ls"] 0 true None) 0
               [str "ls"; str "-l"] []) as (evs0 & _ & _ & Heq & _).
  - vm_compute. reflexivity.
  - reflexivity.
  - reflexivity.
  - exact Heq.
Defined.



(** ** The buffer across turns of [main] *)

Lemma bind_Ret_inv {A B} (m : M A) (k : A -> M B) tr b t :
  bind m k tr = Ret b t -> exists a t1, m tr = Ret a t1 /\ k a t1 = Ret b t.
Proof.
  unfold bind. destruct (m tr) as [a t1| | | |]; try done. intros H. by exists a, t1.
Qed.

(** X14.  The line buffer lives across the turns of [main]: when a turn
    ends with "continue", the buffer it hands to the next turn is
    allocated, has exactly its recorded capacity, and that capacity is the
    one the turn started with (1024 for a buffer never allocated) times a
    power of two: commands and tokenizing never move or shrink it. *)
Theorem main_iter_keeps_buffer E fuel lb tr lb' tr' :
  lb_good lb ->
  main_iter E fuel lb tr = Ret (Continue lb') tr' ->
  (exists l, lb_line lb' = Some l /\ strlen l = lb_cap lb') /\
  lb_cap lb' <= PTRDIFF_MAX /\
  exists k, 0 <= k /\ lb_cap lb' = start_cap lb * 2 ^ k.
Proof.
  intros Hgood Hrun. unfold main_iter in Hrun.
  apply bind_Ret_inv in Hrun as ([] & t1 & _ & Hrun).
  apply bind_Ret_inv in Hrun as ([rr lb1] & t2 & Hread & Hrun).
  pose proof (read_line_inv E fuel lb t1 Hgood) as Hinv. rewrite Hread in Hinv.
  destruct Hinv as (evs & k & _ & _ & Hg1 & Hk & Hcap & Hrr).
  destruct (rr <? 0).
  { apply bind_Ret_inv in Hrun as (? & ? & _ & Hrun). by injection Hrun. }
  destruct (rr =? 0).
  { apply bind_Ret_inv in Hrun as (? & ? & _ & Hrun). by injection Hrun. }
  destruct (lb_line lb1) as [l|] eqn:Hl; [|done].
  assert (Hl1 : strlen l = lb_cap lb1 /\ lb_cap lb1 <= PTRDIFF_MAX).
  { unfold lb_good in Hg1. by rewrite Hl in Hg1. }
  assert (Hsame : lb' = lb1 -> (exists l0, lb_line lb' = Some l0 /\ strlen l0 = lb_cap lb') /\
            lb_cap lb' <= PTRDIFF_MAX /\ exists k, 0 <= k /\ lb_cap lb' = start_cap lb * 2 ^ k).
  { intros ->. split; [exists l; tauto|]. split; [tauto|]. by exists k. }
  destruct (is_nul (peek l 0)). { injection Hrun as <- _. by apply Hsame. }
  destruct (parse_tokens_spec l MAX_ARGS) as (r & Hparse & Hlen & _).
  rewrite Hparse in Hrun. cbv zeta in Hrun.
  assert (Hcut : lb' = LineBuf (Some (p_line r)) (lb_cap lb1) ->
            (exists l0, lb_line lb' = Some l0 /\ strlen l0 = lb_cap lb') /\
            lb_cap lb' <= PTRDIFF_MAX /\ exists k, 0 <= k /\ lb_cap lb' = start_cap lb * 2 ^ k).
  { intros ->. cbn [lb_line lb_cap]. split.
    - exists (p_line r). split; [done|]. unfold strlen in *. lia.
    - split; [tauto|]. by exists k. }
  destruct (p_argc r =? 0). { injection Hrun as <- _. by apply Hcut. }
  destruct (strcmp_eq _ (str "exit")); [by injection Hrun|].
  destruct (strcmp_eq _ (str "cd")).
  - apply bind_Ret_inv in Hrun as (? & ? & _ & Hrun). injection Hrun as <- _. by apply Hcut.
  - apply bind_Ret_inv in Hrun as (? & ? & _ & Hrun). injection Hrun as <- _. by apply Hcut.
Qed.

Lemma main_iter_keeps_buffer_witness :
  exists lb' tr',
    main_iter (Sample.env None (Sample.typed (str "cd /" ++ [LF])) [] 1 true None) 20
      (LineBuf None 0) [] = Ret (Continue lb') tr' /\
    exists k, 0 <= k /\ lb_cap lb' = INITIAL_BUFSZ * 2 ^ k.
Proof.
  eexists _, _. split.
  - vm_compute. reflexivity.
  - edestruct (main_iter_keeps_buffer
                 (Sample.env None (Sample.typed (str "cd /" ++ [LF])) [] 1 true None) 20
                 (LineBuf None 0) []) as (_ & _ & Hk).
    + exact I.
    + vm_compute. reflexivity.
    + exact Hk.
Defined.

